(** * LC29H-DA-RPi-RTK: the Node relay ([_node_version/app.js])

    A shallow embedding of the serial-to-TCP NMEA relay with NTRIP
    correction injection, and the properties of its filter, position
    tracker, subscriber registry and correction client.

    Conventions of the embedding:
    - a JavaScript string is a [string]: a sequence of code units, here
      restricted to the 8-bit range (NMEA is ASCII);
    - a JavaScript Number is an IEEE-754 binary64 value, [spec_float] with
      precision 53 and maximal exponent 1024, computed with the Standard
      Library's executable specification of the floating-point operations;
    - the event handlers of the program are functions from the program
      state and the event to the new state and the list of effects the
      handler performs on the outside world (socket writes, serial writes,
      console lines), in order;
    - the properties of a socket object that the runtime maintains
      ([writable], [remoteAddress], [remotePort]) are read from a snapshot
      passed with each event.

    The listeners that only report (the status line every 15 s, the
    errors of the server, of the serial stream and of the request to the
    caster, the end of the corrections) and the callbacks that end the
    process after a SIGINT are left out. *)

From Stdlib Require Import Bool Arith ZArith NArith QArith Qabs Lia List.
From Stdlib Require Import Ascii String DecimalString.
From Stdlib Require Import SpecFloat.
Import ListNotations.

Local Close Scope Q_scope.
Local Open Scope nat_scope.
Local Open Scope string_scope.
Local Open Scope list_scope.

(** ** JavaScript primitives used by the program *)

Module JS.

(** [s.substring(a, b)] for [0 <= a <= b]: indices are clamped to the
    length of [s]. *)
Definition substring (a b : nat) (s : string) : string :=
  String.substring a (b - a) s.

(** [s.slice(0, n)] and [s.slice(n)] for [n >= 0]. *)
Definition slice_to (n : nat) (s : string) : string :=
  String.substring 0 n s.

Fixpoint slice_from (n : nat) (s : string) : string :=
  match n, s with
  | O, _ => s
  | S _, EmptyString => EmptyString
  | S n', String _ s' => slice_from n' s'
  end.

(** [s.startsWith(p)]. *)
Definition startsWith (p s : string) : bool := String.prefix p s.

(** [s.split(',')]: never the empty array; the empty string splits to
    one empty field. *)
Fixpoint split_comma (s : string) : list string :=
  match s with
  | EmptyString => [EmptyString]
  | String c s' =>
      if Ascii.eqb c "," then EmptyString :: split_comma s'
      else match split_comma s' with
           | [] => [String c EmptyString]
           | field :: fields => String c field :: fields
           end
  end.

(** [arr.includes(x)] on an array of strings. *)
Definition includes (arr : list string) (x : string) : bool :=
  existsb (String.eqb x) arr.

(** [arr[i]], [undefined] (here [None]) out of range. *)
Definition at_index {A} (arr : list A) (i : nat) : option A := nth_error arr i.

(** [arr.indexOf(x)] on an array of object references: the first index
    holding [x], [None] for -1. *)
Fixpoint indexOf (arr : list nat) (x : nat) : option nat :=
  match arr with
  | [] => None
  | y :: arr' =>
      if Nat.eqb y x then Some O
      else match indexOf arr' x with
           | Some i => Some (S i)
           | None => None
           end
  end.

(** [arr.splice(idx, 1)]: the array without the element at [idx]. *)
Fixpoint splice1 {A} (idx : nat) (arr : list A) : list A :=
  match idx, arr with
  | _, [] => []
  | O, _ :: arr' => arr'
  | S i, y :: arr' => y :: splice1 i arr'
  end.

(** [x || d] on strings that may be undefined: the empty string is
    falsy. *)
Definition or_string (x : option string) (d : string) : string :=
  match x with
  | Some (String c s) => String c s
  | _ => d
  end.

End JS.


(** ** Numbers: IEEE-754 binary64 *)

Module Num.

Definition number := spec_float.

Definition prec : Z := 53.
Definition emax : Z := 1024.

Definition NaN : number := S754_nan.

(** The Number nearest to an integer ([szero] is the sign given to
    zero). *)
Definition of_Z (z : Z) (szero : bool) : number :=
  binary_normalize prec emax z 0 szero.

Definition add (x y : number) : number := SFadd prec emax x y.
Definition mul (x y : number) : number := SFmul prec emax x y.
Definition div (x y : number) : number := SFdiv prec emax x y.

(** The Number nearest to [(-1)^neg * m * 10^e10]: an integer is rounded
    once; a proper fraction is the correctly rounded quotient of two
    integers. *)
Definition of_decimal (neg : bool) (m : N) (e10 : Z) : number :=
  match m with
  | N0 => S754_zero neg
  | Npos p =>
      match e10 with
      | Zneg k => SFdiv prec emax (S754_finite neg p 0)
                    (S754_finite false (Pos.pow 10 k) 0)
      | Zpos k => binary_round prec emax neg (p * Pos.pow 10 k)%positive 0
      | Z0 => binary_round prec emax neg p 0
      end
  end.

(** ToBoolean on a Number: zero and NaN are falsy. *)
Definition truthy (x : number) : bool :=
  match x with
  | S754_zero _ | S754_nan => false
  | _ => true
  end.

(** [x || d] on Numbers. *)
Definition or_number (x d : number) : number := if truthy x then x else d.

(** The exact rational value of a finite Number ([0] for the others). *)
Definition to_Q (x : number) : Q :=
  match x with
  | S754_finite s m e =>
      let mag := match e with
                 | Zneg k => Qmake (Zpos m) (Pos.pow 2 k)
                 | _ => inject_Z (Zpos m * 2 ^ e)
                 end in
      if s then Qopp mag else mag
  | _ => 0%Q
  end.

Definition isWhiteSpace (c : ascii) : bool :=
  let n := nat_of_ascii c in
  (Nat.leb 9 n && Nat.leb n 13) || Nat.eqb n 32 || Nat.eqb n 160.

(** TrimString(s, start). *)
Fixpoint trimStart (s : string) : string :=
  match s with
  | String c s' => if isWhiteSpace c then trimStart s' else s
  | EmptyString => s
  end.

Definition digit_of (c : ascii) : option N :=
  let n := nat_of_ascii c in
  if Nat.leb 48 n && Nat.leb n 57 then Some (N.of_nat (n - 48)) else None.

(** The longest prefix of decimal digits, and what follows it. *)
Fixpoint take_digits (s : string) : list N * string :=
  match s with
  | EmptyString => ([], s)
  | String c s' =>
      match digit_of c with
      | Some d => let '(ds, rest) := take_digits s' in (d :: ds, rest)
      | None => ([], s)
      end
  end.

Definition digits_value (ds : list N) : N :=
  fold_left (fun acc d => (10 * acc + d)%N) ds 0%N.

(** An optional leading sign: is it a minus, and what follows it. *)
Definition take_sign (s : string) : bool * string :=
  match s with
  | String "-" s' => (true, s')
  | String "+" s' => (false, s')
  | _ => (false, s)
  end.

(** [parseInt(s, 10)]. *)
Definition parseInt (s : string) : number :=
  let '(neg, body) := take_sign (trimStart s) in
  match fst (take_digits body) with
  | [] => NaN
  | ds => of_Z (if neg then - Z.of_N (digits_value ds) else Z.of_N (digits_value ds)) neg
  end.

(** The exponent part of a decimal literal ([e] or [E], an optional
    sign, at least one digit); [0] when there is none. *)
Definition take_exponent (s : string) : Z :=
  match s with
  | String c s' =>
      if Ascii.eqb c "e" || Ascii.eqb c "E" then
        let '(neg, body) := take_sign s' in
        match fst (take_digits body) with
        | [] => 0%Z
        | ds => if neg then - Z.of_N (digits_value ds) else Z.of_N (digits_value ds)
        end
      else 0%Z
  | EmptyString => 0%Z
  end.

(** The value of the longest prefix of [body] that is digits, an optional
    point and digits, and an optional exponent part; NaN when there is no
    digit. *)
Definition decimal_literal (neg : bool) (body : string) : number :=
  let '(ip, r1) := take_digits body in
  let '(fp, r2) := match r1 with
                   | String "." r => take_digits r
                   | _ => ([], r1)
                   end in
  match ip ++ fp with
  | [] => NaN
  | ds => of_decimal neg (digits_value ds)
            (take_exponent r2 - Z.of_nat (List.length fp))
  end.

(** [parseFloat(s)]: the value of the longest prefix of the trimmed
    string that is a StrDecimalLiteral, NaN when there is none. *)
Definition parseFloat (s : string) : number :=
  let '(neg, body) := take_sign (trimStart s) in
  if String.prefix "Infinity" body then S754_infinity neg
  else decimal_literal neg body.

End Num.

Import Num.

(** ** Configuration (lines 13-30) *)

(** [process.env]: a variable is unset ([None]) or holds a string. *)
Definition ProcessEnv := string -> option string.

Definition TCP_ALLOW (env : ProcessEnv) : string :=
  JS.or_string (env "TCP_ALLOW") "RMC,VTG,GGA".

Definition TCP_ALLOW_LIST (env : ProcessEnv) : list string :=
  JS.split_comma (TCP_ALLOW env).

Definition TCP_ONLY_RTK_FIXED (env : ProcessEnv) : bool :=
  match env "TCP_ONLY_RTK_FIXED" with
  | Some v => String.eqb v "true"
  | None => false
  end.

(** [parseInt(undefined, 10)] is NaN: the string "undefined" has no
    leading digit. *)
Definition TCP_MAX_CLIENTS (env : ProcessEnv) : number :=
  or_number (match env "TCP_MAX_CLIENTS" with
             | Some v => parseInt v
             | None => NaN
             end) (of_Z 5 false).

(** The constants the event handlers read; fixed once the program has
    started. *)
Record Config := {
  allow_list : list string;
  only_rtk_fixed : bool;
  max_clients : number
}.

Definition config_of_env (env : ProcessEnv) : Config :=
  {| allow_list := TCP_ALLOW_LIST env;
     only_rtk_fixed := TCP_ONLY_RTK_FIXED env;
     max_clients := TCP_MAX_CLIENTS env |}.

(** ** Helpers (lines 134-181) *)

Definition cleanAddress (addr : string) : string :=
  if JS.startsWith "::ffff:" addr then JS.slice_from 7 addr else addr.

(** A coordinate is [null] ([None]) or a Number. *)
Definition parseNmeaCoord (coord dir : string) : option number :=
  if String.eqb coord "" || Nat.ltb (String.length coord) 4 then None
  else
    let k := if String.eqb dir "N" || String.eqb dir "S" then 2 else 3 in
    let deg := parseInt (JS.slice_to k coord) in
    let min := parseFloat (JS.slice_from k coord) in
    let val := add deg (div min (of_Z 60 false)) in
    Some (if String.eqb dir "S" || String.eqb dir "W"
          then mul val (of_Z (-1) false) else val).

(** The object [parseGGA] returns; [raw] is undefined until the serial
    handler stores the sentence in it.  The property [fix] is written
    [fix_], [fix] being reserved. *)
Record GGA := {
  lat : option number;
  lon : option number;
  fix_ : string;
  time : string;
  sats : number;
  raw : option string
}.

(** [parts[i]] where the length test has shown the index in range. *)
Definition part (parts : list string) (i : nat) : string := nth i parts "".

Definition parseGGA (sentence : string) : option GGA :=
  let parts := JS.split_comma sentence in
  if Nat.ltb (List.length parts) 15 then None
  else Some {| lat := parseNmeaCoord (part parts 2) (part parts 3);
               lon := parseNmeaCoord (part parts 4) (part parts 5);
               fix_ := part parts 6;
               time := part parts 1;
               sats := parseInt (part parts 7);
               raw := None |}.

Definition getFixStatus (fix_ : string) : string :=
  if String.eqb fix_ "0" then "No Fix"
  else if String.eqb fix_ "1" then "GPS Fix"
  else if String.eqb fix_ "2" then "DGPS Fix"
  else if String.eqb fix_ "3" then "PPS Fix"
  else if String.eqb fix_ "4" then "RTK Fix"
  else if String.eqb fix_ "5" then "RTK Float"
  else if String.eqb fix_ "6" then "Dead Reckoning"
  else if String.eqb fix_ "7" then "Manual Input"
  else if String.eqb fix_ "8" then "Simulation"
  else "Unknown".

(** ** The outside world *)

Definition LF : string := String "010"%char EmptyString.
Definition CRLF : string := String "013"%char LF.

(** A socket object is known by its reference; what the runtime keeps in
    it is read from the snapshot.  [remoteAddress] is a string: the
    connection listener reads it when the connection is accepted, and the
    socket keeps the peer name it has once given. *)
Record SocketInfo := {
  writable : bool;
  remoteAddress : string;
  remotePort : nat
}.

Definition Sockets := nat -> SocketInfo.

(** What a handler asks of the runtime.  [console_log text] and
    [console_error text] are calls with the one argument [text], which is
    printed as it is.  [console_error_format format args] is
    [console.error(format, ...args)] with a first argument computed from
    the peer: the runtime reads that argument as a format string, so the
    call is kept with its arguments as the handler gives them, and the
    line it prints is not part of the model.  [socket_end socket text] is
    [socket.end(text)]: the text is written and the socket is closed for
    writing.  [server_close] is [tcp_nmea_server.close(...)] and
    [set_timeout ms] is [setTimeout(..., ms)], both with the callback the
    SIGINT handler gives them. *)
Inductive Effect :=
| socket_write (socket : nat) (text : string)
| socket_end (socket : nat) (text : string)
| socket_destroy (socket : nat)
| serial_port_write (chunk : list Byte.byte)
| req_write (text : string)
| res_resume
| server_close
| set_timeout (ms : nat)
| console_log (text : string)
| console_error (text : string)
| console_error_format (format : string) (args : list string).

(** The one request of [startNtripStream] has no response yet, or its
    response was a 200 and carries the ['data'] listener, or its response
    was refused and is drained. *)
Inductive NtripPhase := ntrip_requested | ntrip_streaming | ntrip_refused.

Record State := {
  clients : list nat;
  latestGGA : option GGA;
  ntrip : NtripPhase
}.

Definition initial_state : State :=
  {| clients := []; latestGGA := None; ntrip := ntrip_requested |}.

Definition show_nat (n : nat) : string :=
  NilEmpty.string_of_uint (Nat.to_uint n).

Definition peer (sk : Sockets) (socket : nat) : string :=
  cleanAddress (remoteAddress (sk socket)) ++ ":" ++ show_nat (remotePort (sk socket)).

(** ** TCP server (lines 200-239) *)

(** [const idx = clients.indexOf(socket); if (idx !== -1) clients.splice(idx, 1);] *)
Definition remove_client (socket : nat) (clients : list nat) : list nat :=
  match JS.indexOf clients socket with
  | Some idx => JS.splice1 idx clients
  | None => clients
  end.

(** The listener given to [net.createServer], then the ['connection']
    listener. *)
Definition on_connection (sk : Sockets) (st : State) (socket : nat)
  : State * list Effect :=
  ({| clients := clients st ++ [socket];
      latestGGA := latestGGA st;
      ntrip := ntrip st |},
   [console_log ("TCP NMEA client connected: " ++ peer sk socket)]).

(** The ['error'] listener of a socket (lines 204-209); [message] is
    [err.message]. *)
Definition on_socket_error (sk : Sockets) (st : State) (socket : nat)
    (message : string) : State * list Effect :=
  ({| clients := remove_client socket (clients st);
      latestGGA := latestGGA st;
      ntrip := ntrip st |},
   [console_error_format ("Socket error from " ++ peer sk socket ++ " -") [message];
    socket_destroy socket]).

Definition on_socket_close (sk : Sockets) (st : State) (socket : nat)
  : State * list Effect :=
  ({| clients := remove_client socket (clients st);
      latestGGA := latestGGA st;
      ntrip := ntrip st |},
   [console_log ("TCP NMEA client disconnected: " ++ peer sk socket)]).

(** ** NTRIP client (lines 80-126) *)

Definition on_ntrip_response (st : State) (statusCode : nat)
    (statusMessage : string) : State * list Effect :=
  if negb (Nat.eqb statusCode 200) then
    ({| clients := clients st; latestGGA := latestGGA st; ntrip := ntrip_refused |},
     [console_error ("NTRIP connection failed: " ++ show_nat statusCode
                       ++ " " ++ statusMessage);
      res_resume])
  else
    ({| clients := clients st; latestGGA := latestGGA st; ntrip := ntrip_streaming |},
     [console_log "NTRIP connection established, streaming RTCM corrections..."]).

(** [res.on('data', chunk => serial_port.write(chunk))]. *)
Definition on_ntrip_data (chunk : list Byte.byte) : list Effect :=
  [serial_port_write chunk].

(** The 60 s timer: [if (latestGGA && latestGGA.raw) ...].  The first
    argument of its [console.error] is a literal without a format
    specifier: the line printed is the two arguments with a space
    between. *)
Definition on_gga_interval (st : State) : list Effect :=
  match latestGGA st with
  | Some gga =>
      match raw gga with
      | Some (String c r) =>
          [req_write (String c r ++ CRLF);
           console_error ("NTRIP GGA sent:" ++ " " ++ String c r)]
      | _ => []
      end
  | None => []
  end.

(** ** Serial stream (lines 257-295) *)

Definition NMEA_SUFFIX (data : string) : string :=
  JS.substring 3 6 (JS.substring 0 6 data).

(** Lines 266-272. *)
Definition track_position (st : State) (data : string) : State :=
  if JS.startsWith "$GPGGA" data || JS.startsWith "$GNGGA" data then
    match parseGGA data with
    | Some gga =>
        {| clients := clients st;
           latestGGA := Some {| lat := lat gga; lon := lon gga; fix_ := fix_ gga;
                                time := time gga; sats := sats gga;
                                raw := Some data |};
           ntrip := ntrip st |}
    | None => st
    end
  else st.

(** Lines 276-281: does the GGA test return early. *)
Definition gga_not_fixed (data : string) : bool :=
  if JS.startsWith "$GNGGA" data || JS.startsWith "$GPGGA" data then
    let fields := JS.split_comma data in
    Nat.ltb 6 (List.length fields) && negb (String.eqb (part fields 6) "4")
  else false.

(** Lines 282-287: does the RMC test return early. *)
Definition rmc_not_fixed (data : string) : bool :=
  if JS.startsWith "$GNRMC" data || JS.startsWith "$GPRMC" data then
    let fields := JS.split_comma data in
    Nat.ltb 12 (List.length fields) && negb (String.eqb (part fields 12) "R")
  else false.

(** [clients.forEach(socket => { if (socket.writable) socket.write(text); })] *)
Definition forEach_write (sk : Sockets) (clients : list nat) (text : string)
  : list Effect :=
  flat_map (fun socket =>
              if writable (sk socket) then [socket_write socket text] else [])
           clients.

Definition on_serial_data (cfg : Config) (sk : Sockets) (st : State)
    (data : string) : State * list Effect :=
  if negb (JS.includes (allow_list cfg) (NMEA_SUFFIX data)) then (st, [])
  else
    let st1 := track_position st data in
    if only_rtk_fixed cfg && gga_not_fixed data then (st1, [])
    else if only_rtk_fixed cfg && rmc_not_fixed data then (st1, [])
    else (st1, forEach_write sk (clients st1) (data ++ LF)).

(** ** Notices to the subscribers (lines 60-75 and 303-324) *)

(** The ['close'] listener of the serial stream. *)
Definition on_serial_close (sk : Sockets) (st : State) : State * list Effect :=
  (st, console_log "Serial port closed"
       :: forEach_write sk (clients st) ("Serial port closed" ++ LF)).

(** The ['open'] listener of the serial stream.  [serial_port] and
    [baud_rate] are the texts of the constants [SERIAL_PORT] and
    [BAUD_RATE] in the template, which the runtime writes out. *)
Definition on_serial_open (sk : Sockets) (st : State) (serial_port baud_rate : string)
  : State * list Effect :=
  (st, console_log ("Serial port " ++ serial_port ++ " opened at " ++ baud_rate ++ " baud")
       :: forEach_write sk (clients st)
            ("Serial port " ++ serial_port ++ " opened at " ++ baud_rate ++ " baud" ++ LF)).

(** The ['end'] listener of the serial stream. *)
Definition on_serial_end (sk : Sockets) (st : State) : State * list Effect :=
  (st, console_log "Serial stream ended"
       :: forEach_write sk (clients st) ("Serial stream ended" ++ LF)).

(** [clients.forEach(socket => { if (socket.writable) socket.end(text); })]:
    a socket is no longer writable once [end] has been called on it, so a
    socket met again in the same loop is passed over.  [ended] holds the
    sockets the loop has ended so far. *)
Fixpoint forEach_end (sk : Sockets) (clients : list nat) (text : string)
    (ended : list nat) : list Effect :=
  match clients with
  | [] => []
  | socket :: clients' =>
      if writable (sk socket) && negb (existsb (Nat.eqb socket) ended)
      then socket_end socket text :: forEach_end sk clients' text (socket :: ended)
      else forEach_end sk clients' text ended
  end.

(** The SIGINT handler.  The registry is left as it is: a socket leaves it
    when its own ['close'] or ['error'] comes. *)
Definition on_sigint (sk : Sockets) (st : State) : State * list Effect :=
  (st, console_log (LF ++ "Ctrl+C received - gracefully shutting down...")
       :: forEach_end sk (clients st) ("Server shutting down" ++ LF) []
       ++ [server_close; set_timeout 4000]).

(** ** The event loop *)

(** The events whose listeners read or change the registry, the fix or
    the phase of the correction client, or write to a subscriber, to the
    serial port or to the caster.  The listeners left out only log, stop a
    timer or end the process. *)
Inductive Event :=
| TcpConnection (socket : nat)
| SocketError (socket : nat) (message : string)
| SocketClose (socket : nat)
| ServerDrop
| SerialData (data : string)
| NtripResponse (statusCode : nat) (statusMessage : string)
| NtripData (chunk : list Byte.byte)
| GgaInterval
| SerialClose
| SerialOpen (serial_port baud_rate : string)
| SerialEnd
| Sigint.

(** A handler returns, or throws; nothing catches what a handler
    throws. *)
Inductive Outcome :=
| Done (st : State) (effects : list Effect)
| Uncaught (error : string).

Definition done (r : State * list Effect) : Outcome := Done (fst r) (snd r).

(** The ['drop'] listener (lines 235-239) names [socket], which no
    enclosing scope binds. *)
Definition on_drop (st : State) : Outcome :=
  Uncaught "ReferenceError: socket is not defined".

Definition step (cfg : Config) (sk : Sockets) (st : State) (ev : Event) : Outcome :=
  match ev with
  | TcpConnection socket => done (on_connection sk st socket)
  | SocketError socket message => done (on_socket_error sk st socket message)
  | SocketClose socket => done (on_socket_close sk st socket)
  | ServerDrop => on_drop st
  | SerialData data => done (on_serial_data cfg sk st data)
  | NtripResponse statusCode statusMessage =>
      match ntrip st with
      | ntrip_requested => done (on_ntrip_response st statusCode statusMessage)
      | _ => Done st []
      end
  | NtripData chunk =>
      match ntrip st with
      | ntrip_streaming => Done st (on_ntrip_data chunk)
      | _ => Done st []
      end
  | GgaInterval => Done st (on_gga_interval st)
  | SerialClose => done (on_serial_close sk st)
  | SerialOpen serial_port baud_rate => done (on_serial_open sk st serial_port baud_rate)
  | SerialEnd => done (on_serial_end sk st)
  | Sigint => done (on_sigint sk st)
  end.

(** A run of the loop: each event comes with the sockets as they are when
    it is handled.  The run ends at the first uncaught error. *)
Fixpoint run (cfg : Config) (st : State) (evs : list (Sockets * Event))
  : Outcome :=
  match evs with
  | [] => Done st []
  | (sk, ev) :: evs' =>
      match step cfg sk st ev with
      | Done st1 out1 =>
          match run cfg st1 evs' with
          | Done st2 out2 => Done st2 (out1 ++ out2)
          | Uncaught e => Uncaught e
          end
      | Uncaught e => Uncaught e
      end
  end.

(** ** Vocabulary of the statements *)

(** Does the handler reach its [clients.forEach]. *)
Definition forwards (cfg : Config) (data : string) : bool :=
  JS.includes (allow_list cfg) (NMEA_SUFFIX data)
  && negb (only_rtk_fixed cfg && (gga_not_fixed data || rmc_not_fixed data)).

(** Does one of the two tests of the RTK gate look at a field of the
    line. *)
Definition gate_inspects (data : string) : bool :=
  ((JS.startsWith "$GNGGA" data || JS.startsWith "$GPGGA" data)
     && Nat.ltb 6 (List.length (JS.split_comma data)))
  || ((JS.startsWith "$GNRMC" data || JS.startsWith "$GPRMC" data)
        && Nat.ltb 12 (List.length (JS.split_comma data))).

Definition with_gate (cfg : Config) (gate : bool) : Config :=
  {| allow_list := allow_list cfg;
     only_rtk_fixed := gate;
     max_clients := max_clients cfg |}.

(** The fix the serial handler stores for a GGA line that [parseGGA]
    accepts: the parsed fields and the line itself. *)
Definition fix_of (data : string) : GGA :=
  let parts := JS.split_comma data in
  {| lat := parseNmeaCoord (part parts 2) (part parts 3);
     lon := parseNmeaCoord (part parts 4) (part parts 5);
     fix_ := part parts 6;
     time := part parts 1;
     sats := parseInt (part parts 7);
     raw := Some data |}.

(** Is the line one the position tracker stores. *)
Definition tracked (cfg : Config) (data : string) : bool :=
  JS.includes (allow_list cfg) (NMEA_SUFFIX data)
  && (JS.startsWith "$GPGGA" data || JS.startsWith "$GNGGA" data)
  && Nat.leb 15 (List.length (JS.split_comma data)).

(** A string of decimal digits, and the integer it writes. *)
Fixpoint all_digits (s : string) : bool :=
  match s with
  | EmptyString => true
  | String c s' =>
      match digit_of c with
      | Some _ => all_digits s'
      | None => false
      end
  end.

Definition decimal (s : string) : N := digits_value (fst (take_digits s)).

(** [degrees + minutes / 60] in binary64, from the digits of the degrees
    and the digits of the minutes before and after the point. *)
Definition degrees_plus_minutes (deg mins frac : string) : number :=
  add (of_Z (Z.of_N (decimal deg)) false)
      (div (of_decimal false (decimal (mins ++ frac))
              (- Z.of_nat (String.length frac)))
           (of_Z 60 false)).

(** The chunks a list of effects writes to the serial port, in order. *)
Fixpoint serial_writes (out : list Effect) : list (list Byte.byte) :=
  match out with
  | [] => []
  | serial_port_write chunk :: out' => chunk :: serial_writes out'
  | _ :: out' => serial_writes out'
  end.

(** The body chunks a list of events delivers, in order. *)
Fixpoint ntrip_chunks (evs : list (Sockets * Event)) : list (list Byte.byte) :=
  match evs with
  | [] => []
  | (_, NtripData chunk) :: evs' => chunk :: ntrip_chunks evs'
  | _ :: evs' => ntrip_chunks evs'
  end.

(** No event of the list is an error or a close of [socket]. *)
Fixpoint stays_connected (socket : nat) (evs : list (Sockets * Event)) : bool :=
  match evs with
  | [] => true
  | (_, SocketError s _) :: evs' | (_, SocketClose s) :: evs' =>
      negb (Nat.eqb s socket) && stays_connected socket evs'
  | _ :: evs' => stays_connected socket evs'
  end.

(** No event of the list is a connection of [socket]. *)
Fixpoint never_reconnects (socket : nat) (evs : list (Sockets * Event)) : bool :=
  match evs with
  | [] => true
  | (_, TcpConnection s) :: evs' =>
      negb (Nat.eqb s socket) && never_reconnects socket evs'
  | _ :: evs' => never_reconnects socket evs'
  end.

(** No event of the list is a dropped connection, the one event whose
    listener throws. *)
Fixpoint never_drops (evs : list (Sockets * Event)) : bool :=
  match evs with
  | [] => true
  | (_, ServerDrop) :: _ => false
  | _ :: evs' => never_drops evs'
  end.

(** ** Sample inputs *)

Definition sample_cfg (gate : bool) : Config :=
  {| allow_list := ["RMC"; "VTG"; "GGA"];
     only_rtk_fixed := gate;
     max_clients := of_Z 5 false |}.

Definition env_unset : ProcessEnv := fun _ => None.

Definition env_empty_allow : ProcessEnv :=
  fun name => if String.eqb name "TCP_ALLOW" then Some "" else None.

Definition env_only_gga : ProcessEnv :=
  fun name => if String.eqb name "TCP_ALLOW" then Some "GGA"
              else if String.eqb name "TCP_ONLY_RTK_FIXED" then Some "true"
              else if String.eqb name "TCP_MAX_CLIENTS" then Some "2"
              else None.

Definition sample_sockets : Sockets :=
  fun n => {| writable := true;
              remoteAddress := "::ffff:192.168.1.20";
              remotePort := 4000 + n |}.

(** Peers on a link-local address, which carries the name of its
    interface after a percent sign. *)
Definition link_local_sockets : Sockets :=
  fun n => {| writable := true;
              remoteAddress := "fe80::1%docker0";
              remotePort := 4000 + n |}.

Definition sample_state (cl : list nat) : State :=
  {| clients := cl; latestGGA := None; ntrip := ntrip_requested |}.

Definition gga_fix1 : string :=
  "$GPGGA,123519,4807.038,N,01131.000,E,1,08,0.9,545.4,M,46.9,M,,*47".

Definition gga_fix4 : string :=
  "$GPGGA,123520,4807.038,N,01131.000,E,4,08,0.9,545.4,M,46.9,M,,*XX".

Definition gga_no_position : string :=
  "$GPGGA,123519,,,,,0,00,,,M,,M,,*66".

Definition gga_truncated : string := "$GPGGA,123519,4807.038,N".

Definition gga_glonass : string :=
  "$GLGGA,123519,4807.038,N,01131.000,E,1,08,0.9,545.4,M,46.9,M,,*47".

Definition gga_no_dollar : string :=
  "?GNGGA,123519,4807.038,N,01131.000,E,1,08,0.9,545.4,M,46.9,M,,*47".

Definition gsv_line : string := "$GPGSV,3,1,11,03,03,111,00,04,15,270,00*74".

Definition rmc_mode_R : string :=
  "$GNRMC,123519,A,4807.038,N,01131.000,E,022.4,084.4,230394,003.1,W,R,V*6A".

Definition rmc_mode_A : string :=
  "$GNRMC,123519,A,4807.038,N,01131.000,E,022.4,084.4,230394,003.1,W,A,V*6A".

Definition rtcm_chunk_1 : list Byte.byte := [Byte.xd3; Byte.x00; Byte.x13; Byte.x3e].

Definition rtcm_chunk_2 : list Byte.byte := [Byte.xd0; Byte.x00; Byte.x03].

Definition sample_events : list (Sockets * Event) :=
  [(sample_sockets, NtripData rtcm_chunk_1);
   (sample_sockets, SerialData gga_fix4);
   (sample_sockets, GgaInterval);
   (sample_sockets, NtripData rtcm_chunk_2)].

(** ** Vocabulary of the further properties *)

(** [parts.join(',')]. *)
Fixpoint join_comma (parts : list string) : string :=
  match parts with
  | [] => EmptyString
  | [p] => p
  | p :: parts' => p ++ String "," (join_comma parts')
  end.

Fixpoint count_commas (s : string) : nat :=
  match s with
  | EmptyString => 0
  | String c s' => if Ascii.eqb c "," then S (count_commas s') else count_commas s'
  end.

Definition with_allow_list (cfg : Config) (l : list string) : Config :=
  {| allow_list := l;
     only_rtk_fixed := only_rtk_fixed cfg;
     max_clients := max_clients cfg |}.

(** The text the leading digits of [parseInt] are taken from. *)
Definition leading_digits (s : string) : list N :=
  fst (take_digits (snd (take_sign (trimStart s)))).

(** What [socket] is written, in order, by a list of effects. *)
Fixpoint writes_to (socket : nat) (out : list Effect) : list string :=
  match out with
  | [] => []
  | socket_write s text :: out' =>
      if Nat.eqb s socket then text :: writes_to socket out' else writes_to socket out'
  | _ :: out' => writes_to socket out'
  end.

(** What [socket] is handed, by [write] or by [end], in order, by a list
    of effects. *)
Fixpoint sent_to (socket : nat) (out : list Effect) : list string :=
  match out with
  | [] => []
  | socket_write s text :: out' | socket_end s text :: out' =>
      if Nat.eqb s socket then text :: sent_to socket out' else sent_to socket out'
  | _ :: out' => sent_to socket out'
  end.

(** The text the listener of an event writes to the subscribers: the line
    with its line feed for a serial line that passes the filter, the
    notice for the closing, the opening and the end of the serial
    stream. *)
Definition written_by (cfg : Config) (ev : Event) : option string :=
  match ev with
  | SerialData data => if forwards cfg data then Some (data ++ LF)%string else None
  | SerialClose => Some ("Serial port closed" ++ LF)%string
  | SerialOpen serial_port baud_rate =>
      Some ("Serial port " ++ serial_port ++ " opened at " ++ baud_rate ++ " baud" ++ LF)%string
  | SerialEnd => Some ("Serial stream ended" ++ LF)%string
  | _ => None
  end.

(** The text with which the listener of an event ends the subscribers:
    the notice of the shutdown. *)
Definition ended_by (ev : Event) : option string :=
  match ev with
  | Sigint => Some ("Server shutting down" ++ LF)%string
  | _ => None
  end.

Definition sent_by (cfg : Config) (ev : Event) : option string :=
  match written_by cfg ev with
  | Some text => Some text
  | None => ended_by ev
  end.

(** The texts [text_of] gives for the events of a list that are handled
    while [socket] is writable, in order. *)
Fixpoint while_writable (text_of : Event -> option string) (socket : nat)
    (evs : list (Sockets * Event)) : list string :=
  match evs with
  | [] => []
  | (sk, ev) :: evs' =>
      match text_of ev with
      | Some text =>
          if writable (sk socket) then text :: while_writable text_of socket evs'
          else while_writable text_of socket evs'
      | None => while_writable text_of socket evs'
      end
  end.

(** The last serial line of a list of events that the position tracker
    stores, [start] when there is none. *)
Fixpoint last_tracked (cfg : Config) (evs : list (Sockets * Event))
    (start : option string) : option string :=
  match evs with
  | [] => start
  | (_, SerialData data) :: evs' =>
      last_tracked cfg evs' (if tracked cfg data then Some data else start)
  | _ :: evs' => last_tracked cfg evs' start
  end.

Definition fix_codes : list string := ["0"; "1"; "2"; "3"; "4"; "5"; "6"; "7"; "8"].

Definition env_trailing_comma : ProcessEnv :=
  fun name => if String.eqb name "TCP_ALLOW" then Some ("GGA,RMC" ++ ",")%string
              else if String.eqb name "TCP_MAX_CLIENTS" then Some " 000 clients"
              else None.

(** The sockets that have connected and have had neither error nor close
    since, in order of connection, starting from [start]. *)
Fixpoint live_sockets (evs : list (Sockets * Event)) (start : list nat) : list nat :=
  match evs with
  | [] => start
  | (_, TcpConnection s) :: evs' => live_sockets evs' (start ++ [s])
  | (_, SocketError s _) :: evs' | (_, SocketClose s) :: evs' =>
      live_sockets evs' (filter (fun x => negb (Nat.eqb x s)) start)
  | _ :: evs' => live_sockets evs' start
  end.

(** Each connection of the list brings a socket that is not live. *)
Fixpoint connections_fresh (evs : list (Sockets * Event)) (start : list nat) : bool :=
  match evs with
  | [] => true
  | (_, TcpConnection s) :: evs' =>
      negb (existsb (Nat.eqb s) start) && connections_fresh evs' (start ++ [s])
  | (_, SocketError s _) :: evs' | (_, SocketClose s) :: evs' =>
      connections_fresh evs' (filter (fun x => negb (Nat.eqb x s)) start)
  | _ :: evs' => connections_fresh evs' start
  end.

(** ** The first relay ([app.js]) *)

(** The relay without filter: its state is the registry alone.  The
    console lines are as they go to a stream that is not a terminal. *)
Module RelayV1.

Definition peer (sk : Sockets) (socket : nat) : string :=
  remoteAddress (sk socket) ++ ":" ++ show_nat (remotePort (sk socket)).

(** The listener given to [net.createServer] pushes the socket; the
    ['connection'] listener logs and pushes it again. *)
Definition on_connection (sk : Sockets) (clients : list nat) (socket : nat)
  : list nat * list Effect :=
  ((clients ++ [socket]) ++ [socket],
   [console_log ("New TCP NMEA client connected:" ++ " " ++ remoteAddress (sk socket)
                   ++ " " ++ show_nat (remotePort (sk socket)))]).

Definition on_socket_error (sk : Sockets) (clients : list nat) (socket : nat)
    (message : string) : list nat * list Effect :=
  (remove_client socket clients,
   [console_error_format ("Socket error from " ++ peer sk socket ++ " -") [message];
    socket_destroy socket]).

Definition on_socket_close (sk : Sockets) (clients : list nat) (socket : nat)
  : list nat * list Effect :=
  (remove_client socket clients,
   [console_log ("TCP NMEA client disconnected: " ++ peer sk socket)]).

Definition on_serial_data (sk : Sockets) (clients : list nat) (data : string)
  : list nat * list Effect :=
  (clients, forEach_write sk clients (data ++ LF)).

End RelayV1.

(** ** The sentence counter ([tcp_message_per_minute.js]) *)

Module NmeaCounter.

Definition cons_head (c : ascii) (pieces : list string) : list string :=
  match pieces with
  | [] => [String c EmptyString]
  | piece :: pieces' => String c piece :: pieces'
  end.

(** [s.split(/\r?\n/)]: a line feed, with the carriage return just before
    it if there is one, ends a piece. *)
Fixpoint split_lines (s : string) : list string :=
  match s with
  | EmptyString => [EmptyString]
  | String c s' =>
      if Ascii.eqb c "010" then EmptyString :: split_lines s'
      else
        match s' with
        | EmptyString => [String c EmptyString]
        | String c' s'' =>
            if Ascii.eqb c "013" && Ascii.eqb c' "010"
            then EmptyString :: split_lines s''
            else cons_head c (split_lines s')
        end
  end.

Fixpoint trimEnd (s : string) : string :=
  match s with
  | EmptyString => EmptyString
  | String c s' =>
      match trimEnd s' with
      | EmptyString => if isWhiteSpace c then EmptyString else String c EmptyString
      | t => String c t
      end
  end.

(** [s.trim()]. *)
Definition trim (s : string) : string := trimEnd (trimStart s).

Definition isUpper (c : ascii) : bool :=
  let n := nat_of_ascii c in Nat.leb 65 n && Nat.leb n 90.

Fixpoint all_upper (s : string) : bool :=
  match s with
  | EmptyString => true
  | String c s' => isUpper c && all_upper s'
  end.

(** [trimmed.startsWith('$')] and [trimmed.match(/^\$([A-Z]{5})/)]: the
    captured group, when the line matches. *)
Definition match_type (trimmed : string) : option string :=
  match trimmed with
  | String "$" rest =>
      let type := String.substring 0 5 rest in
      if Nat.eqb (String.length type) 5 && all_upper type then Some type else None
  | _ => None
  end.

(** [(count || 0) + 1] on a count, an integer-valued Number: exact below
    2^53, where adding 1 no longer changes the value. *)
Definition plus_one (count : N) : N :=
  if N.ltb count 9007199254740992 then (count + 1)%N else count.

(** [nmeaCounts[type] = (nmeaCounts[type] || 0) + 1]: the object keeps
    its keys in the order they were first set. *)
Fixpoint bump (type : string) (counts : list (string * N)) : list (string * N) :=
  match counts with
  | [] => [(type, plus_one 0)]
  | (key, count) :: counts' =>
      if String.eqb key type then (key, plus_one count) :: counts'
      else (key, count) :: bump type counts'
  end.

Definition count_line (counts : list (string * N)) (line : string)
  : list (string * N) :=
  match match_type (trim line) with
  | Some type => bump type counts
  | None => counts
  end.

Record State := {
  leftover : string;
  nmeaCounts : list (string * N)
}.

Definition initial : State := {| leftover := EmptyString; nmeaCounts := [] |}.

(** The ['data'] listener from the text of the chunk on: [data] is what
    [data.toString()] gives. *)
Definition on_data (st : State) (data : string) : State :=
  let lines := split_lines (leftover st ++ data) in
  {| leftover := last lines EmptyString;
     nmeaCounts := fold_left count_line (removelast lines) (nmeaCounts st) |}.

Definition is_ascii (b : Byte.byte) : bool := N.ltb (Byte.to_N b) 128.

(** [data.toString()] on a chunk of bytes, which decodes it as UTF-8: a
    byte below 128 is the character of the same code.  A chunk with a
    byte from 128 on decodes to characters beyond the 8-bit strings of
    this development, and by rules that look at the bytes around it: it
    has no text here. *)
Definition toString (data : list Byte.byte) : option string :=
  if forallb is_ascii data then Some (string_of_list_byte data) else None.

(** The ['data'] listener on a chunk as the socket gives it. *)
Definition on_chunk (st : State) (data : list Byte.byte) : option State :=
  match toString data with
  | Some text => Some (on_data st text)
  | None => None
  end.

Definition show_count (count : N) : string :=
  NilEmpty.string_of_uint (N.to_uint count).

(** The 60 s timer: the lines it logs, and the counts set back to 0. *)
Definition on_interval (st : State) : State * list string :=
  ({| leftover := leftover st;
      nmeaCounts := map (fun entry => (fst entry, 0%N)) (nmeaCounts st) |},
   "NMEA sentence counts (last minute):"
   :: match nmeaCounts st with
      | [] => ["  No NMEA sentences received yet."]
      | entries =>
          map (fun entry => ("  " ++ fst entry ++ ": " ++ show_count (snd entry))%string)
              entries
      end).

Inductive Event :=
| Data (data : string)
| Interval.

(** The state after a list of events, and the lines logged. *)
Fixpoint run (st : State) (evs : list Event) : State * list string :=
  match evs with
  | [] => (st, [])
  | Data data :: evs' => run (on_data st data) evs'
  | Interval :: evs' =>
      let '(st1, log1) := on_interval st in
      let '(st2, log2) := run st1 evs' in
      (st2, log1 ++ log2)
  end.

Definition no_line_feed (s : string) : Prop :=
  ~ In "010"%char (list_ascii_of_string s).

Definition nothing_received : string := "  No NMEA sentences received yet.".

Definition chunk_to_carriage_return : list Byte.byte :=
  list_byte_of_string ("$GNGGA,1" ++ String "013"%char "").

Definition chunk_from_line_feed : list Byte.byte :=
  list_byte_of_string (LF ++ "$GNR").

End NmeaCounter.

(** ** The command sender ([sendCommands]) *)

Module CommandSender.

Inductive PortEffect :=
| port_write (text : string)
| port_close
| log (text : string)
| log_error (text : string)
| set_timeout (ms : nat).

(** [sendNext(idx)], with the callbacks of [port.write] and [setTimeout]
    run in their turn.  [write_error idx] is what the write of command
    [idx] reports: nothing, or the message of an error.  [fuel] bounds
    the number of commands still to send. *)
Fixpoint sendNext (commands : list string) (write_error : nat -> option string)
    (fuel : nat) (idx : nat) : list PortEffect :=
  match nth_error commands idx with
  | None => [log "All commands sent."; port_close]
  | Some command =>
      port_write (command ++ CRLF)
      :: match write_error idx with
         | Some message =>
             [log_error ("Error writing command:" ++ " " ++ message); port_close]
         | None =>
             log ("Sent: " ++ command)
             :: set_timeout 300
             :: match fuel with
                | O => []
                | S fuel' => sendNext commands write_error fuel' (idx + 1)
                end
         end
  end.

(** The texts written to the port, in order. *)
Fixpoint port_writes (out : list PortEffect) : list string :=
  match out with
  | [] => []
  | port_write text :: out' => text :: port_writes out'
  | _ :: out' => port_writes out'
  end.

Fixpoint closes (out : list PortEffect) : nat :=
  match out with
  | [] => 0
  | port_close :: out' => S (closes out')
  | _ :: out' => closes out'
  end.

(** The commands from [idx] on, up to and with the first whose write
    fails. *)
Fixpoint attempted (write_error : nat -> option string) (rest : list string)
    (idx : nat) : list string :=
  match rest with
  | [] => []
  | command :: rest' =>
      command :: match write_error idx with
                 | Some _ => []
                 | None => attempted write_error rest' (S idx)
                 end
  end.

Definition commands : list string := ["$PAIR063,-1*22"].

End CommandSender.

(** The texts a list of effects sends to the caster, in order. *)
Fixpoint caster_writes (out : list Effect) : list string :=
  match out with
  | [] => []
  | req_write text :: out' => text :: caster_writes out'
  | _ :: out' => caster_writes out'
  end.

Definition rmc_mode_last : string :=
  "$GNRMC,123519,A,4807.038,N,01131.000,E,022.4,084.4,230394,003.1,W,R*6A".

(** * Properties *)

Example split_comma_ex :
  JS.split_comma "$GPGGA,1,,x" = ["$GPGGA"; "1"; ""; "x"].
Proof. reflexivity. Qed.

Example substring_ex : JS.substring 3 6 (JS.substring 0 6 "$GPGGA,1") = "GGA".
Proof. reflexivity. Qed.

(** ** The primitives *)

Lemma includes_In (arr : list string) (x : string) :
  JS.includes arr x = true <-> In x arr.
Proof.
  unfold JS.includes. rewrite existsb_exists. split.
  - intros [y [Hy Heq]]. apply String.eqb_eq in Heq. now subst.
  - intros Hx. exists x. split; [assumption | apply String.eqb_refl].
Qed.

Lemma includes_not_In (arr : list string) (x : string) :
  JS.includes arr x = false <-> ~ In x arr.
Proof.
  rewrite <- includes_In. destruct (JS.includes arr x); split; intros H;
    try reflexivity; try discriminate; try (intros H'; discriminate).
  exfalso; now apply H.
Qed.

Lemma split_comma_nonempty (s : string) : JS.split_comma s <> [].
Proof.
  destruct s as [|c s]; simpl; [discriminate|].
  destruct (Ascii.eqb c ","); [discriminate|].
  destruct (JS.split_comma s); discriminate.
Qed.

Lemma startsWith_substring (p s : string) :
  JS.startsWith p s = true -> String.substring 0 (String.length p) s = p.
Proof. unfold JS.startsWith. apply String.prefix_correct. Qed.

(** A line that starts with a six-character sentence identifier has the
    last three characters of it as its type. *)
Lemma startsWith_suffix (p s : string) :
  String.length p = 6 -> JS.startsWith p s = true ->
  NMEA_SUFFIX s = String.substring 3 3 p.
Proof.
  intros Hlen Hp. apply startsWith_substring in Hp. rewrite Hlen in Hp.
  unfold NMEA_SUFFIX, JS.substring. simpl Nat.sub. now rewrite Hp.
Qed.

Lemma startsWith_excl (p q s : string) :
  String.length p = String.length q -> p <> q ->
  JS.startsWith p s = true -> JS.startsWith q s = false.
Proof.
  intros Hlen Hne Hp. destruct (JS.startsWith q s) eqn:Hq; [|reflexivity].
  apply startsWith_substring in Hp, Hq. rewrite Hlen in Hp. congruence.
Qed.

Lemma startsWith_dollar (p s : string) :
  JS.startsWith (String "$" p) s = true -> JS.startsWith "$" s = true.
Proof.
  intros Hp. apply startsWith_substring in Hp.
  destruct s as [|c s]; [discriminate|].
  simpl in Hp. injection Hp as -> _.
  unfold JS.startsWith. apply String.prefix_correct. destruct s; reflexivity.
Qed.

(** ** The serial handler, step by step *)

Lemma track_position_clients (st : State) (data : string) :
  clients (track_position st data) = clients st.
Proof.
  unfold track_position.
  destruct (JS.startsWith "$GPGGA" data || JS.startsWith "$GNGGA" data); [|reflexivity].
  destruct (parseGGA data); reflexivity.
Qed.

Lemma track_position_ntrip (st : State) (data : string) :
  ntrip (track_position st data) = ntrip st.
Proof.
  unfold track_position.
  destruct (JS.startsWith "$GPGGA" data || JS.startsWith "$GNGGA" data); [|reflexivity].
  destruct (parseGGA data); reflexivity.
Qed.

Lemma on_serial_data_out (cfg : Config) (sk : Sockets) (st : State) (data : string) :
  snd (on_serial_data cfg sk st data) =
  if forwards cfg data then forEach_write sk (clients st) (data ++ LF) else [].
Proof.
  unfold on_serial_data, forwards.
  destruct (JS.includes (allow_list cfg) (NMEA_SUFFIX data)); simpl; [|reflexivity].
  destruct (only_rtk_fixed cfg); simpl.
  - destruct (gga_not_fixed data); simpl; [reflexivity|].
    destruct (rmc_not_fixed data); simpl; [reflexivity|].
    now rewrite track_position_clients.
  - now rewrite track_position_clients.
Qed.

Lemma on_serial_data_state (cfg : Config) (sk : Sockets) (st : State) (data : string) :
  fst (on_serial_data cfg sk st data) =
  if JS.includes (allow_list cfg) (NMEA_SUFFIX data) then track_position st data else st.
Proof.
  unfold on_serial_data.
  destruct (JS.includes (allow_list cfg) (NMEA_SUFFIX data)); simpl; [|reflexivity].
  destruct (only_rtk_fixed cfg && gga_not_fixed data); [reflexivity|].
  destruct (only_rtk_fixed cfg && rmc_not_fixed data); reflexivity.
Qed.

Lemma on_serial_data_clients (cfg : Config) (sk : Sockets) (st : State) (data : string) :
  clients (fst (on_serial_data cfg sk st data)) = clients st.
Proof.
  rewrite on_serial_data_state.
  destruct (JS.includes _ _); [apply track_position_clients | reflexivity].
Qed.

Lemma forEach_write_In (sk : Sockets) (cl : list nat) (text : string) (s : nat) (t : string) :
  In (socket_write s t) (forEach_write sk cl text) <->
  In s cl /\ writable (sk s) = true /\ t = text.
Proof.
  unfold forEach_write. rewrite in_flat_map. split.
  - intros [x [Hx Hin]]. destruct (writable (sk x)) eqn:Hw; [|contradiction].
    destruct Hin as [Heq|[]]. injection Heq as -> ->. auto.
  - intros [Hs [Hw ->]]. exists s. split; [assumption|]. rewrite Hw. now left.
Qed.

Lemma forEach_end_only_ends (sk : Sockets) (cl : list nat) (text : string) (e : Effect) :
  forall ended,
    In e (forEach_end sk cl text ended) ->
    exists s, e = socket_end s text /\ In s cl /\ writable (sk s) = true.
Proof.
  induction cl as [|y cl IH]; intros ended Hin; [destruct Hin|].
  simpl in Hin. destruct (writable (sk y)) eqn:Hw; simpl in Hin.
  - destruct (negb (existsb (Nat.eqb y) ended)); simpl in Hin.
    + destruct Hin as [<-|Hin].
      * exists y. repeat split; [now left | assumption].
      * destruct (IH _ Hin) as [s [He [Hs Hws]]]. exists s. repeat split; auto. now right.
    + destruct (IH _ Hin) as [s [He [Hs Hws]]]. exists s. repeat split; auto. now right.
  - destruct (IH _ Hin) as [s [He [Hs Hws]]]. exists s. repeat split; auto. now right.
Qed.

(** The effects of the SIGINT handler other than its first and its last
    two end a registered, writable socket. *)
Lemma on_sigint_effects (sk : Sockets) (st : State) (e : Effect) :
  In e (snd (on_sigint sk st)) ->
  e = console_log (LF ++ "Ctrl+C received - gracefully shutting down...")
  \/ (exists s, e = socket_end s ("Server shutting down" ++ LF)
                /\ In s (clients st) /\ writable (sk s) = true)
  \/ e = server_close \/ e = set_timeout 4000.
Proof.
  unfold on_sigint. cbn [snd]. intros [<-|Hin]; [now left|].
  apply in_app_or in Hin. destruct Hin as [Hin|[<-|[<-|[]]]]; auto.
  right. left. exact (forEach_end_only_ends sk _ _ e [] Hin).
Qed.

Lemma forEach_write_only_writes (sk : Sockets) (cl : list nat) (text : string) (e : Effect) :
  In e (forEach_write sk cl text) -> exists s, e = socket_write s text.
Proof.
  unfold forEach_write. rewrite in_flat_map. intros [x [_ Hin]].
  destruct (writable (sk x)); [|contradiction].
  destruct Hin as [<-|[]]. now exists x.
Qed.

Lemma not_allowed_dropped (cfg : Config) (sk : Sockets) (st : State) (data : string) :
  ~ In (NMEA_SUFFIX data) (allow_list cfg) ->
  on_serial_data cfg sk st data = (st, []).
Proof.
  intros Hout. apply includes_not_In in Hout.
  unfold on_serial_data. now rewrite Hout.
Qed.

(** ** C2: the allow list *)

(** C2.  The type of a line is its characters 4 to 6.  A line whose type
    is not in the allow list is
    written to no subscriber and changes nothing.  With the allow list
    GGA, RMC, VTG and the RTK gate off, every line of type GSV is dropped
    and every line of type GGA is written to every writable subscriber,
    whatever its fields hold. *)
Theorem allow_list_filters :
  forall (cfg : Config) (sk : Sockets) (st : State) (data : string),
    (forall (c1 c2 c3 c4 c5 c6 : ascii) (rest : string),
       NMEA_SUFFIX (String c1 (String c2 (String c3 (String c4 (String c5 (String c6 rest))))))
       = String c4 (String c5 (String c6 EmptyString)))
    /\
    (~ In (NMEA_SUFFIX data) (allow_list cfg) ->
       on_serial_data cfg sk st data = (st, []) /\
       forall s t, ~ In (socket_write s t) (snd (on_serial_data cfg sk st data)))
    /\
    ((forall t, In t (allow_list cfg) <-> t = "GGA" \/ t = "RMC" \/ t = "VTG") ->
     only_rtk_fixed cfg = false ->
       (NMEA_SUFFIX data = "GSV" -> snd (on_serial_data cfg sk st data) = [])
       /\
       (NMEA_SUFFIX data = "GGA" ->
          snd (on_serial_data cfg sk st data) = forEach_write sk (clients st) (data ++ LF)
          /\ forall s, In s (clients st) -> writable (sk s) = true ->
                       In (socket_write s (data ++ LF)) (snd (on_serial_data cfg sk st data)))).
Proof.
  intros cfg sk st data. split; [|split].
  - intros c1 c2 c3 c4 c5 c6 rest. now destruct rest.
  - intros Hout. pose proof (not_allowed_dropped cfg sk st data Hout) as Heq.
    split; [assumption|]. intros s t. rewrite Heq. simpl. tauto.
  - intros Hallow Hgate. rewrite on_serial_data_out. unfold forwards. rewrite Hgate.
    simpl. rewrite andb_true_r. split.
    + intros Hgsv.
      assert (Hno : JS.includes (allow_list cfg) (NMEA_SUFFIX data) = false).
      { apply includes_not_In. rewrite Hgsv, Hallow.
        intros [H|[H|H]]; discriminate. }
      now rewrite Hno.
    + intros Hgga.
      assert (Hyes : JS.includes (allow_list cfg) (NMEA_SUFFIX data) = true).
      { apply includes_In. rewrite Hgga, Hallow. now left. }
      rewrite Hyes. split; [reflexivity|].
      intros s Hs Hw. apply forEach_write_In. auto.
Qed.

Lemma allow_list_filters_witness :
  snd (on_serial_data (sample_cfg false) sample_sockets (sample_state [1; 2]) gsv_line) = []
  /\ snd (on_serial_data (sample_cfg false) sample_sockets (sample_state [1; 2]) gga_fix1)
     = [socket_write 1 (gga_fix1 ++ LF); socket_write 2 (gga_fix1 ++ LF)]
  /\ on_serial_data (sample_cfg true) sample_sockets (sample_state [1; 2]) gsv_line
     = (sample_state [1; 2], []).
Proof.
  assert (Hallow : forall t, In t (allow_list (sample_cfg false)) <->
                             t = "GGA" \/ t = "RMC" \/ t = "VTG").
  { intros t. simpl. split.
    - intros [H|[H|[H|[]]]]; subst; auto.
    - intros [H|[H|H]]; subst; auto. }
  destruct (allow_list_filters (sample_cfg false) sample_sockets (sample_state [1; 2]) gsv_line)
    as [_ [_ Hgsv]].
  destruct (allow_list_filters (sample_cfg false) sample_sockets (sample_state [1; 2]) gga_fix1)
    as [_ [_ Hgga]].
  destruct (allow_list_filters (sample_cfg true) sample_sockets (sample_state [1; 2]) gsv_line)
    as [_ [Hdrop _]].
  split; [|split].
  - exact (proj1 (Hgsv Hallow eq_refl) eq_refl).
  - rewrite (proj1 (proj2 (Hgga Hallow eq_refl) eq_refl)). reflexivity.
  - apply Hdrop. simpl. intros [H|[H|[H|[]]]]; discriminate.
Defined.

(** ** C10: the allow list of the environment *)

(** C10.  Whatever the environment holds, the allow list is not empty;
    when TCP_ALLOW is unset or the empty string it is RMC, VTG, GGA; and a
    line whose type is outside the list is dropped: there is no setting
    that lets every type through. *)
Theorem allow_list_never_empty :
  forall (env : ProcessEnv),
    TCP_ALLOW_LIST env <> []
    /\ (env "TCP_ALLOW" = None \/ env "TCP_ALLOW" = Some "" ->
          TCP_ALLOW_LIST env = ["RMC"; "VTG"; "GGA"])
    /\ (forall sk st data,
          ~ In (NMEA_SUFFIX data) (TCP_ALLOW_LIST env) ->
          on_serial_data (config_of_env env) sk st data = (st, [])).
Proof.
  intros env. split; [|split].
  - apply split_comma_nonempty.
  - unfold TCP_ALLOW_LIST, TCP_ALLOW. intros [-> | ->]; reflexivity.
  - intros sk st data Hout. now apply not_allowed_dropped.
Qed.

Lemma allow_list_never_empty_witness :
  TCP_ALLOW_LIST env_unset = ["RMC"; "VTG"; "GGA"]
  /\ TCP_ALLOW_LIST env_empty_allow = ["RMC"; "VTG"; "GGA"]
  /\ on_serial_data (config_of_env env_only_gga) sample_sockets (sample_state [1]) rmc_mode_R
     = (sample_state [1], []).
Proof.
  split; [|split].
  - apply (allow_list_never_empty env_unset). left. reflexivity.
  - apply (allow_list_never_empty env_empty_allow). right. reflexivity.
  - apply (allow_list_never_empty env_only_gga).
    simpl. intros [H|[]]. discriminate.
Defined.

(** ** C4: lines that do not start with a dollar sign *)

Lemma no_dollar_no_prefix (p data : string) :
  JS.startsWith "$" data = false -> JS.startsWith (String "$" p) data = false.
Proof.
  intros Hno. destruct (JS.startsWith (String "$" p) data) eqn:Hp; [|reflexivity].
  apply startsWith_dollar in Hp. congruence.
Qed.

Lemma no_dollar_untracked (st : State) (data : string) :
  JS.startsWith "$" data = false -> track_position st data = st.
Proof.
  intros Hno. unfold track_position.
  now rewrite !(no_dollar_no_prefix _ data Hno).
Qed.

Lemma no_dollar_ungated (data : string) :
  JS.startsWith "$" data = false ->
  gga_not_fixed data = false /\ rmc_not_fixed data = false.
Proof.
  intros Hno. unfold gga_not_fixed, rmc_not_fixed.
  now rewrite !(no_dollar_no_prefix _ data Hno).
Qed.

(** Against C4 as written.  The handler never looks at the first
    character of the line: a line without the dollar sign whose characters 4 to 6 spell an allowed type
    is written to the subscribers. *)
Lemma no_dollar_line_is_broadcast :
  ~ (forall (cfg : Config) (sk : Sockets) (st : State) (data : string) (s : nat) (t : string),
       JS.startsWith "$" data = false ->
       ~ In (socket_write s t) (snd (on_serial_data cfg sk st data))).
Proof.
  intros H.
  apply (H (sample_cfg true) sample_sockets (sample_state [1]) gga_no_dollar
           1 (gga_no_dollar ++ LF)%string); [reflexivity|].
  vm_compute. now left.
Qed.

(** C4, as the code has it.  A line that does not start with the dollar sign never
    replaces the stored fix and is never looked at by the RTK gate; it is
    written to every writable subscriber when its characters 4 to 6 are in
    the allow list, and dropped when they are not. *)
Theorem no_dollar_line_by_type_alone :
  forall (cfg : Config) (sk : Sockets) (st : State) (data : string),
    JS.startsWith "$" data = false ->
    fst (on_serial_data cfg sk st data) = st
    /\ snd (on_serial_data cfg sk st data) =
       if JS.includes (allow_list cfg) (NMEA_SUFFIX data)
       then forEach_write sk (clients st) (data ++ LF) else [].
Proof.
  intros cfg sk st data Hno. split.
  - rewrite on_serial_data_state, (no_dollar_untracked st data Hno).
    now destruct (JS.includes _ _).
  - rewrite on_serial_data_out. unfold forwards.
    destruct (no_dollar_ungated data Hno) as [-> ->].
    now rewrite andb_false_r, andb_true_r.
Qed.

Lemma no_dollar_line_by_type_alone_witness :
  fst (on_serial_data (sample_cfg true) sample_sockets (sample_state [1]) gga_no_dollar)
    = sample_state [1]
  /\ snd (on_serial_data (sample_cfg true) sample_sockets (sample_state [1]) gga_no_dollar)
    = [socket_write 1 (gga_no_dollar ++ LF)].
Proof.
  destruct (no_dollar_line_by_type_alone (sample_cfg true) sample_sockets
              (sample_state [1]) gga_no_dollar eq_refl) as [Hst Hout].
  split.
  - exact Hst.
  - rewrite Hout. reflexivity.
Defined.

(** ** C1: the RTK gate *)

Lemma gga_prefix_cases (data : string) :
  JS.startsWith "$GPGGA" data = true \/ JS.startsWith "$GNGGA" data = true ->
  (JS.startsWith "$GNGGA" data || JS.startsWith "$GPGGA" data = true)
  /\ (JS.startsWith "$GNRMC" data || JS.startsWith "$GPRMC" data = false)
  /\ NMEA_SUFFIX data = "GGA".
Proof.
  intros [H|H].
  - rewrite H, orb_true_r.
    rewrite (startsWith_excl "$GPGGA" "$GNRMC" data), (startsWith_excl "$GPGGA" "$GPRMC" data);
      try reflexivity; try discriminate; try assumption.
    repeat split. now apply (startsWith_suffix "$GPGGA").
  - rewrite H.
    rewrite (startsWith_excl "$GNGGA" "$GNRMC" data), (startsWith_excl "$GNGGA" "$GPRMC" data);
      try reflexivity; try discriminate; try assumption.
    repeat split. now apply (startsWith_suffix "$GNGGA").
Qed.

Lemma rmc_prefix_cases (data : string) :
  JS.startsWith "$GPRMC" data = true \/ JS.startsWith "$GNRMC" data = true ->
  (JS.startsWith "$GNRMC" data || JS.startsWith "$GPRMC" data = true)
  /\ (JS.startsWith "$GNGGA" data || JS.startsWith "$GPGGA" data = false)
  /\ NMEA_SUFFIX data = "RMC".
Proof.
  intros [H|H].
  - rewrite H, orb_true_r.
    rewrite (startsWith_excl "$GPRMC" "$GNGGA" data), (startsWith_excl "$GPRMC" "$GPGGA" data);
      try reflexivity; try discriminate; try assumption.
    repeat split. now apply (startsWith_suffix "$GPRMC").
  - rewrite H.
    rewrite (startsWith_excl "$GNRMC" "$GNGGA" data), (startsWith_excl "$GNRMC" "$GPGGA" data);
      try reflexivity; try discriminate; try assumption.
    repeat split. now apply (startsWith_suffix "$GNRMC").
Qed.

Lemma not_inspected_passes (data : string) :
  gate_inspects data = false ->
  gga_not_fixed data = false /\ rmc_not_fixed data = false.
Proof.
  unfold gate_inspects, gga_not_fixed, rmc_not_fixed. intros H.
  apply orb_false_iff in H. destruct H as [Hg Hr].
  split.
  - destruct (JS.startsWith "$GNGGA" data || JS.startsWith "$GPGGA" data); [|reflexivity].
    simpl in Hg. now rewrite Hg.
  - destruct (JS.startsWith "$GNRMC" data || JS.startsWith "$GPRMC" data); [|reflexivity].
    simpl in Hr. now rewrite Hr.
Qed.

(** Against C1 as written.  With the gate on, a GGA line of another
    talker is written to the subscribers although its seventh field is
    "1". *)
Lemma gate_misses_other_talkers :
  ~ (forall (cfg : Config) (sk : Sockets) (st : State) (data : string) (s : nat) (t : string),
       only_rtk_fixed cfg = true ->
       NMEA_SUFFIX data = "GGA" ->
       In (socket_write s t) (snd (on_serial_data cfg sk st data)) ->
       JS.at_index (JS.split_comma data) 6 = Some "4").
Proof.
  intros H.
  assert (Hinst := H (sample_cfg true) sample_sockets (sample_state [1]) gga_glonass
                      1 (gga_glonass ++ LF)%string eq_refl eq_refl).
  assert (Hin : In (socket_write 1 (gga_glonass ++ LF))
                   (snd (on_serial_data (sample_cfg true) sample_sockets
                           (sample_state [1]) gga_glonass)))
    by (vm_compute; now left).
  specialize (Hinst Hin). vm_compute in Hinst. discriminate.
Qed.

(** The same for a GGA line cut short of its seventh field. *)
Example gate_passes_truncated_gga :
  JS.at_index (JS.split_comma gga_truncated) 6 = None
  /\ snd (on_serial_data (sample_cfg true) sample_sockets (sample_state [1]) gga_truncated)
     = [socket_write 1 (gga_truncated ++ LF)].
Proof. split; reflexivity. Qed.

(** C1, as the code has it.  With the gate on: a line that starts with $GPGGA or
    $GNGGA and has at least 7 comma-delimited fields is written to a
    subscriber only if its 7th field is "4" (with "1" there it is dropped,
    with "4" and GGA allowed it goes to every writable subscriber); a line
    that starts with $GPRMC or $GNRMC and has at least 13 fields is
    written only if its 13th field is "R"; every other line, a GGA or RMC
    line with fewer fields or another talker included, is handled as with
    the gate off. *)
Theorem rtk_gate_by_prefix_and_fields :
  forall (cfg : Config) (sk : Sockets) (st : State) (data : string),
    only_rtk_fixed cfg = true ->
    ((JS.startsWith "$GPGGA" data = true \/ JS.startsWith "$GNGGA" data = true) ->
     7 <= List.length (JS.split_comma data) ->
       (forall s t, In (socket_write s t) (snd (on_serial_data cfg sk st data)) ->
                    part (JS.split_comma data) 6 = "4")
       /\ (part (JS.split_comma data) 6 = "1" ->
             snd (on_serial_data cfg sk st data) = [])
       /\ (part (JS.split_comma data) 6 = "4" -> In "GGA" (allow_list cfg) ->
             snd (on_serial_data cfg sk st data)
             = forEach_write sk (clients st) (data ++ LF)))
    /\
    ((JS.startsWith "$GPRMC" data = true \/ JS.startsWith "$GNRMC" data = true) ->
     13 <= List.length (JS.split_comma data) ->
       (forall s t, In (socket_write s t) (snd (on_serial_data cfg sk st data)) ->
                    part (JS.split_comma data) 12 = "R")
       /\ (part (JS.split_comma data) 12 = "R" -> In "RMC" (allow_list cfg) ->
             snd (on_serial_data cfg sk st data)
             = forEach_write sk (clients st) (data ++ LF)))
    /\
    (gate_inspects data = false ->
       on_serial_data cfg sk st data = on_serial_data (with_gate cfg false) sk st data).
Proof.
  intros cfg sk st data Hgate. split; [|split].
  - intros Hpre Hlen.
    destruct (gga_prefix_cases data Hpre) as [Hg [Hr Hsuf]].
    assert (Hlt : Nat.ltb 6 (List.length (JS.split_comma data)) = true)
      by (apply Nat.ltb_lt; lia).
    assert (Hgga : gga_not_fixed data = negb (String.eqb (part (JS.split_comma data) 6) "4"))
      by (unfold gga_not_fixed; now rewrite Hg, Hlt).
    assert (Hrmc : rmc_not_fixed data = false)
      by (unfold rmc_not_fixed; now rewrite Hr).
    rewrite on_serial_data_out. unfold forwards. rewrite Hgate, Hgga, Hrmc, Hsuf.
    rewrite orb_false_r. simpl.
    destruct (String.eqb (part (JS.split_comma data) 6) "4") eqn:Hfour.
    + apply String.eqb_eq in Hfour. rewrite Hfour. simpl. rewrite andb_true_r.
      split; [reflexivity|]. split; [discriminate|].
      intros _ Hallow. apply includes_In in Hallow. now rewrite Hallow.
    + simpl. rewrite andb_false_r. split; [intros s t []|].
      split; [reflexivity|].
      intros Heq. rewrite Heq in Hfour. discriminate.
  - intros Hpre Hlen.
    destruct (rmc_prefix_cases data Hpre) as [Hr [Hg Hsuf]].
    assert (Hlt : Nat.ltb 12 (List.length (JS.split_comma data)) = true)
      by (apply Nat.ltb_lt; lia).
    assert (Hrmc : rmc_not_fixed data = negb (String.eqb (part (JS.split_comma data) 12) "R"))
      by (unfold rmc_not_fixed; now rewrite Hr, Hlt).
    assert (Hgga : gga_not_fixed data = false)
      by (unfold gga_not_fixed; now rewrite Hg).
    rewrite on_serial_data_out. unfold forwards. rewrite Hgate, Hgga, Hrmc, Hsuf.
    simpl.
    destruct (String.eqb (part (JS.split_comma data) 12) "R") eqn:HR.
    + apply String.eqb_eq in HR. rewrite HR. simpl. rewrite andb_true_r.
      split; [reflexivity|].
      intros _ Hallow. apply includes_In in Hallow. now rewrite Hallow.
    + simpl. rewrite andb_false_r. split; [intros s t []|].
      intros Heq. rewrite Heq in HR. discriminate.
  - intros Hins. destruct (not_inspected_passes data Hins) as [Hg Hr].
    unfold on_serial_data. simpl. rewrite Hg, Hr, !andb_false_r. reflexivity.
Qed.

Lemma rtk_gate_by_prefix_and_fields_witness :
  snd (on_serial_data (sample_cfg true) sample_sockets (sample_state [1; 2]) gga_fix1) = []
  /\ snd (on_serial_data (sample_cfg true) sample_sockets (sample_state [1; 2]) gga_fix4)
     = [socket_write 1 (gga_fix4 ++ LF); socket_write 2 (gga_fix4 ++ LF)]
  /\ snd (on_serial_data (sample_cfg true) sample_sockets (sample_state [1; 2]) rmc_mode_R)
     = [socket_write 1 (rmc_mode_R ++ LF); socket_write 2 (rmc_mode_R ++ LF)]
  /\ on_serial_data (sample_cfg true) sample_sockets (sample_state [1; 2]) gga_glonass
     = on_serial_data (sample_cfg false) sample_sockets (sample_state [1; 2]) gga_glonass.
Proof.
  assert (Hseven : 7 <= List.length (JS.split_comma gga_fix1)) by (vm_compute; lia).
  assert (Hseven' : 7 <= List.length (JS.split_comma gga_fix4)) by (vm_compute; lia).
  assert (Hthirteen : 13 <= List.length (JS.split_comma rmc_mode_R)) by (vm_compute; lia).
  destruct (rtk_gate_by_prefix_and_fields (sample_cfg true) sample_sockets
              (sample_state [1; 2]) gga_fix1 eq_refl) as [H1 _].
  destruct (rtk_gate_by_prefix_and_fields (sample_cfg true) sample_sockets
              (sample_state [1; 2]) gga_fix4 eq_refl) as [H4 _].
  destruct (rtk_gate_by_prefix_and_fields (sample_cfg true) sample_sockets
              (sample_state [1; 2]) rmc_mode_R eq_refl) as [_ [HR _]].
  destruct (rtk_gate_by_prefix_and_fields (sample_cfg true) sample_sockets
              (sample_state [1; 2]) gga_glonass eq_refl) as [_ [_ Hother]].
  split; [|split; [|split]].
  - exact (proj1 (proj2 (H1 (or_introl eq_refl) Hseven)) eq_refl).
  - rewrite (proj2 (proj2 (H4 (or_introl eq_refl) Hseven')) eq_refl);
      [reflexivity | simpl; auto].
  - rewrite (proj2 (HR (or_intror eq_refl) Hthirteen) eq_refl);
      [reflexivity | simpl; auto].
  - exact (Hother eq_refl).
Defined.

(** ** C3 and C5: the position tracker *)

Lemma parseGGA_None (sentence : string) :
  parseGGA sentence = None <-> List.length (JS.split_comma sentence) < 15.
Proof.
  unfold parseGGA.
  destruct (Nat.ltb (List.length (JS.split_comma sentence)) 15) eqn:Hlt.
  - apply Nat.ltb_lt in Hlt. tauto.
  - apply Nat.ltb_ge in Hlt. split; [discriminate | lia].
Qed.

Lemma track_position_latest (st : State) (data : string) :
  latestGGA (track_position st data) =
  if (JS.startsWith "$GPGGA" data || JS.startsWith "$GNGGA" data)
     && Nat.leb 15 (List.length (JS.split_comma data))
  then Some (fix_of data) else latestGGA st.
Proof.
  unfold track_position, parseGGA.
  destruct (JS.startsWith "$GPGGA" data || JS.startsWith "$GNGGA" data); [|reflexivity].
  rewrite andb_true_l.
  destruct (Nat.ltb (List.length (JS.split_comma data)) 15) eqn:Hlt.
  - apply Nat.ltb_lt in Hlt.
    assert (Hle : Nat.leb 15 (List.length (JS.split_comma data)) = false)
      by (apply Nat.leb_gt; lia).
    now rewrite Hle.
  - apply Nat.ltb_ge in Hlt.
    assert (Hle : Nat.leb 15 (List.length (JS.split_comma data)) = true)
      by now apply Nat.leb_le.
    now rewrite Hle.
Qed.

Lemma on_serial_data_latest (cfg : Config) (sk : Sockets) (st : State) (data : string) :
  latestGGA (fst (on_serial_data cfg sk st data)) =
  if tracked cfg data then Some (fix_of data) else latestGGA st.
Proof.
  rewrite on_serial_data_state. unfold tracked.
  destruct (JS.includes (allow_list cfg) (NMEA_SUFFIX data)); simpl; [|reflexivity].
  apply track_position_latest.
Qed.

Lemma short_line_untracked (st : State) (data : string) :
  List.length (JS.split_comma data) < 15 -> track_position st data = st.
Proof.
  intros Hlen. apply parseGGA_None in Hlen. unfold track_position. rewrite Hlen.
  now destruct (JS.startsWith "$GPGGA" data || JS.startsWith "$GNGGA" data).
Qed.

(** Against C3 as written.  With the gate on, a GGA line with fix
    quality "1" is not written to the subscribers, and yet it replaces the
    stored fix. *)
Lemma gated_fix_still_tracked :
  ~ (forall (cfg : Config) (sk : Sockets) (st : State) (data : string),
       only_rtk_fixed cfg = true ->
       NMEA_SUFFIX data = "GGA" ->
       JS.at_index (JS.split_comma data) 6 <> Some "4" ->
       latestGGA (fst (on_serial_data cfg sk st data)) = latestGGA st).
Proof.
  intros H.
  assert (Hinst := H (sample_cfg true) sample_sockets (sample_state [1]) gga_fix1
                      eq_refl eq_refl).
  assert (Hfield : JS.at_index (JS.split_comma gga_fix1) 6 <> Some "4")
    by (vm_compute; discriminate).
  specialize (Hinst Hfield). vm_compute in Hinst. discriminate.
Qed.

(** C3, as the code has it.  The position tracker sits behind the allow list only,
    and before the RTK gate: the stored fix is replaced exactly by a line
    whose type is allowed, that starts with $GPGGA or $GNGGA and has at
    least 15 comma-delimited fields, whatever the gate is set to; with the
    gate on, such a line whose 7th field is not "4" replaces the stored
    fix and is written to no subscriber. *)
Theorem position_tracked_before_gate :
  forall (cfg : Config) (sk : Sockets) (st : State) (data : string),
    latestGGA (fst (on_serial_data cfg sk st data))
    = (if tracked cfg data then Some (fix_of data) else latestGGA st)
    /\ (forall gate, fst (on_serial_data (with_gate cfg gate) sk st data)
                     = fst (on_serial_data cfg sk st data))
    /\ (only_rtk_fixed cfg = true -> tracked cfg data = true ->
        part (JS.split_comma data) 6 <> "4" ->
          latestGGA (fst (on_serial_data cfg sk st data)) = Some (fix_of data)
          /\ snd (on_serial_data cfg sk st data) = []).
Proof.
  intros cfg sk st data. split; [|split].
  - apply on_serial_data_latest.
  - intros gate. now rewrite !on_serial_data_state.
  - intros Hgate Htr Hfix. split.
    + now rewrite on_serial_data_latest, Htr.
    + unfold tracked in Htr. apply andb_true_iff in Htr. destruct Htr as [Htr Hlen].
      apply andb_true_iff in Htr. destruct Htr as [Hallow Hpre].
      apply Nat.leb_le in Hlen.
      assert (Hgga : gga_not_fixed data = true).
      { unfold gga_not_fixed. rewrite orb_comm, Hpre.
        apply andb_true_iff. split; [apply Nat.ltb_lt; lia|].
        apply negb_true_iff. apply String.eqb_neq. exact Hfix. }
      rewrite on_serial_data_out. unfold forwards. rewrite Hgate, Hgga.
      now rewrite andb_false_r.
Qed.

Lemma position_tracked_before_gate_witness :
  latestGGA (fst (on_serial_data (sample_cfg true) sample_sockets (sample_state [1]) gga_fix1))
    = Some (fix_of gga_fix1)
  /\ snd (on_serial_data (sample_cfg true) sample_sockets (sample_state [1]) gga_fix1) = [].
Proof.
  destruct (position_tracked_before_gate (sample_cfg true) sample_sockets
              (sample_state [1]) gga_fix1) as [_ [_ H]].
  apply H; [reflexivity | reflexivity | vm_compute; discriminate].
Defined.

(** Against C5 as written.  A GGA line of 15 fields with empty latitude
    and longitude is not rejected: [parseGGA] returns a fix whose
    coordinates are null. *)
Lemma empty_position_still_parsed :
  ~ (forall (sentence : string),
       List.length (JS.split_comma sentence) < 15
       \/ part (JS.split_comma sentence) 2 = ""
       \/ part (JS.split_comma sentence) 4 = "" ->
       parseGGA sentence = None).
Proof.
  intros H.
  assert (Hinst := H gga_no_position (or_intror (or_introl eq_refl))).
  vm_compute in Hinst. discriminate.
Qed.

(** Such a fix is stored. *)
Example empty_position_is_stored :
  option_map lat (latestGGA (fst (on_serial_data (sample_cfg false) sample_sockets
                                    (sample_state [1]) gga_no_position)))
  = Some None.
Proof. vm_compute. reflexivity. Qed.

(** C5, as the code has it.  [parseGGA] returns no fix exactly when the line has
    fewer than 15 comma-delimited fields.  With 15 fields or more it
    returns a fix, in which a latitude or longitude field that is empty or
    shorter than 4 characters gives a null coordinate, and that fix is
    what the tracker stores.  A line with fewer than 15 fields leaves the
    state as it was; it is written to the subscribers by the same test as
    any other line (with the gate off, when its type is allowed); and the
    handler returns, so that the events that follow are handled as if the
    line had only produced its own output. *)
Theorem parseGGA_null_only_when_short :
  forall (cfg : Config) (sk : Sockets) (st : State) (sentence : string),
    (parseGGA sentence = None <-> List.length (JS.split_comma sentence) < 15)
    /\ (15 <= List.length (JS.split_comma sentence) ->
          exists gga, parseGGA sentence = Some gga
            /\ (String.length (part (JS.split_comma sentence) 2) < 4 -> lat gga = None)
            /\ (String.length (part (JS.split_comma sentence) 4) < 4 -> lon gga = None)
            /\ (tracked cfg sentence = true ->
                  latestGGA (fst (on_serial_data cfg sk st sentence))
                  = Some {| lat := lat gga; lon := lon gga; fix_ := fix_ gga;
                            time := time gga; sats := sats gga;
                            raw := Some sentence |}))
    /\ (List.length (JS.split_comma sentence) < 15 ->
          fst (on_serial_data cfg sk st sentence) = st
          /\ snd (on_serial_data cfg sk st sentence)
             = (if forwards cfg sentence
                then forEach_write sk (clients st) (sentence ++ LF) else [])
          /\ (only_rtk_fixed cfg = false ->
              In (NMEA_SUFFIX sentence) (allow_list cfg) ->
                snd (on_serial_data cfg sk st sentence)
                = forEach_write sk (clients st) (sentence ++ LF))
          /\ forall rest,
               run cfg st ((sk, SerialData sentence) :: rest)
               = match run cfg st rest with
                 | Done st2 out2 =>
                     Done st2 (snd (on_serial_data cfg sk st sentence) ++ out2)
                 | Uncaught e => Uncaught e
                 end).
Proof.
  intros cfg sk st sentence. split; [|split].
  - apply parseGGA_None.
  - intros Hlen.
    assert (Hge : Nat.ltb (List.length (JS.split_comma sentence)) 15 = false)
      by (apply Nat.ltb_ge; lia).
    unfold parseGGA. rewrite Hge. eexists. split; [reflexivity|]. simpl.
    split; [|split].
    + intros Hshort. unfold parseNmeaCoord. apply Nat.ltb_lt in Hshort.
      now rewrite Hshort, orb_true_r.
    + intros Hshort. unfold parseNmeaCoord. apply Nat.ltb_lt in Hshort.
      now rewrite Hshort, orb_true_r.
    + intros Htr. now rewrite on_serial_data_latest, Htr.
  - intros Hlen.
    assert (Hst : fst (on_serial_data cfg sk st sentence) = st).
    { rewrite on_serial_data_state, (short_line_untracked st sentence Hlen).
      now destruct (JS.includes _ _). }
    split; [exact Hst|]. split; [apply on_serial_data_out|]. split.
    + intros Hgate Hallow. rewrite on_serial_data_out. unfold forwards.
      apply includes_In in Hallow. now rewrite Hallow, Hgate.
    + intros rest. simpl. unfold done. now rewrite Hst.
Qed.

Lemma parseGGA_null_only_when_short_witness :
  parseGGA gga_truncated = None
  /\ (exists gga, parseGGA gga_no_position = Some gga /\ lat gga = None /\ lon gga = None)
  /\ on_serial_data (sample_cfg false) sample_sockets (sample_state [1]) gga_truncated
     = (sample_state [1], [socket_write 1 (gga_truncated ++ LF)]).
Proof.
  assert (Hshort : List.length (JS.split_comma gga_truncated) < 15) by (vm_compute; lia).
  assert (Hlong : 15 <= List.length (JS.split_comma gga_no_position)) by (vm_compute; lia).
  destruct (parseGGA_null_only_when_short (sample_cfg false) sample_sockets
              (sample_state [1]) gga_truncated) as [Hnone [_ Hdrop]].
  destruct (parseGGA_null_only_when_short (sample_cfg false) sample_sockets
              (sample_state [1]) gga_no_position) as [_ [Hsome _]].
  split; [|split].
  - apply Hnone. exact Hshort.
  - destruct (Hsome Hlong) as [gga [Hg [Hlat [Hlon _]]]].
    exists gga. split; [exact Hg|]. split.
    + apply Hlat. vm_compute. lia.
    + apply Hlon. vm_compute. lia.
  - destruct (Hdrop Hshort) as [Hst [_ [Hout _]]].
    rewrite (surjective_pairing (on_serial_data _ _ _ _)), Hst, Hout;
      [reflexivity | reflexivity | simpl; auto].
Defined.

(** ** C6: the coordinate decoder *)

Section Digits.

Lemma digit_not_space (c : ascii) (d : N) :
  digit_of c = Some d -> isWhiteSpace c = false.
Proof.
  destruct c as [[] [] [] [] [] [] [] []]; intros H; try discriminate H; reflexivity.
Qed.

Lemma digit_not_sign (c : ascii) (d : N) (s : string) :
  digit_of c = Some d -> take_sign (String c s) = (false, String c s).
Proof.
  destruct c as [[] [] [] [] [] [] [] []]; intros H; try discriminate H; reflexivity.
Qed.

Lemma digit_not_Infinity (c : ascii) (d : N) (s : string) :
  digit_of c = Some d -> String.prefix "Infinity" (String c s) = false.
Proof.
  destruct c as [[] [] [] [] [] [] [] []]; intros H; try discriminate H; reflexivity.
Qed.

Lemma take_digits_app (s rest : string) :
  all_digits s = true ->
  take_digits (s ++ rest) =
  (fst (take_digits s) ++ fst (take_digits rest), snd (take_digits rest)).
Proof.
  induction s as [|c s IH]; simpl; intros Hs.
  - now destruct (take_digits rest).
  - destruct (digit_of c) as [d|]; [|discriminate].
    rewrite (IH Hs). now destruct (take_digits s).
Qed.

Lemma take_digits_all (s : string) :
  all_digits s = true -> snd (take_digits s) = "".
Proof.
  induction s as [|c s IH]; simpl; intros Hs; [reflexivity|].
  destruct (digit_of c) as [d|]; [|discriminate].
  specialize (IH Hs). now destruct (take_digits s).
Qed.

Lemma take_digits_length (s : string) :
  all_digits s = true -> List.length (fst (take_digits s)) = String.length s.
Proof.
  induction s as [|c s IH]; simpl; intros Hs; [reflexivity|].
  destruct (digit_of c) as [d|]; [|discriminate].
  specialize (IH Hs). destruct (take_digits s). simpl in *. now rewrite IH.
Qed.

Lemma take_digits_nonempty (s : string) :
  all_digits s = true -> s <> "" -> fst (take_digits s) <> [].
Proof.
  intros Hs Hne Hnil. apply (f_equal (@List.length N)) in Hnil.
  rewrite (take_digits_length s Hs) in Hnil. destruct s; [now apply Hne | discriminate].
Qed.

Lemma take_digits_dot (s : string) : take_digits (String "." s) = ([], String "." s).
Proof. reflexivity. Qed.

End Digits.

Lemma slice_to_app (s rest : string) : JS.slice_to (String.length s) (s ++ rest) = s.
Proof.
  unfold JS.slice_to. induction s as [|c s IH]; simpl.
  - now destruct rest.
  - now rewrite IH.
Qed.

Lemma slice_from_app (s rest : string) : JS.slice_from (String.length s) (s ++ rest) = rest.
Proof. induction s as [|c s IH]; simpl; [reflexivity | exact IH]. Qed.

Lemma length_app (s rest : string) :
  String.length (s ++ rest) = String.length s + String.length rest.
Proof. induction s as [|c s IH]; simpl; [reflexivity | now rewrite IH]. Qed.

(** [parseInt] of a string of digits is the integer it writes. *)
Lemma parseInt_digits (s : string) :
  all_digits s = true -> s <> "" ->
  parseInt s = of_Z (Z.of_N (decimal s)) false.
Proof.
  intros Hs Hne. pose proof (take_digits_nonempty s Hs Hne) as Hds.
  destruct s as [|c s]; [now contradiction Hne|].
  unfold parseInt, decimal. simpl in Hs.
  destruct (digit_of c) as [d|] eqn:Hc; [|discriminate].
  simpl trimStart. rewrite (digit_not_space c d Hc), (digit_not_sign c d _ Hc).
  destruct (fst (take_digits (String c s))); [now contradiction Hds | reflexivity].
Qed.

(** [parseFloat] of digits, a point and digits is the decimal they
    write. *)
Lemma parseFloat_decimal (mins frac : string) :
  all_digits mins = true -> all_digits frac = true -> mins <> "" ->
  parseFloat (mins ++ "." ++ frac)
  = of_decimal false (decimal (mins ++ frac)) (- Z.of_nat (String.length frac)).
Proof.
  intros Hm Hf Hne.
  change ((mins ++ "." ++ frac)%string) with ((mins ++ String "." frac)%string).
  pose proof (take_digits_nonempty mins Hm Hne) as Hds.
  assert (Hlit : decimal_literal false (mins ++ String "." frac)
                 = of_decimal false (decimal (mins ++ frac))
                     (- Z.of_nat (String.length frac))).
  { pose proof (take_digits_all frac Hf) as Hrest.
    pose proof (take_digits_length frac Hf) as Hlen.
    unfold decimal_literal, decimal.
    rewrite (take_digits_app mins frac Hm).
    rewrite (take_digits_app mins (String "." frac) Hm), take_digits_dot.
    cbn [fst snd].
    destruct (take_digits frac) as [fd fr]. cbn [fst snd] in *. subst fr.
    rewrite app_nil_r, Hlen.
    destruct (fst (take_digits mins) ++ fd) eqn:Hcat.
    - apply app_eq_nil in Hcat. now contradiction Hds.
    - reflexivity. }
  rewrite <- Hlit. clear Hlit Hds.
  destruct mins as [|c mins]; [now contradiction Hne|].
  simpl in Hm. destruct (digit_of c) as [d|] eqn:Hc; [|discriminate].
  unfold parseFloat. simpl append. simpl trimStart.
  now rewrite (digit_not_space c d Hc), (digit_not_sign c d _ Hc),
    (digit_not_Infinity c d _ Hc).
Qed.

(** Multiplying a binary64 value by -1 flips its sign and nothing else. *)
Lemma minus_one_eq : of_Z (-1) false = S754_finite true 4503599627370496 (-52).
Proof. vm_compute. reflexivity. Qed.

Lemma shr_1_xO (p : positive) :
  shr_1 {| shr_m := Zpos p~0; shr_r := false; shr_s := false |}
  = {| shr_m := Zpos p; shr_r := false; shr_s := false |}.
Proof. reflexivity. Qed.

Lemma iter_shr_shift (n : nat) (p : positive) :
  Nat.iter n shr_1 {| shr_m := Zpos (Nat.iter n xO p); shr_r := false; shr_s := false |}
  = {| shr_m := Zpos p; shr_r := false; shr_s := false |}.
Proof.
  induction n as [|n IH]; [reflexivity|].
  rewrite Nat.iter_succ_r. simpl Nat.iter at 2. rewrite shr_1_xO. exact IH.
Qed.

Lemma iter_pos_nat {A : Type} (f : A -> A) (p : positive) (x : A) :
  iter_pos f p x = Nat.iter (Pos.to_nat p) f x.
Proof.
  revert x. induction p as [p IH|p IH|]; intros x; cbn [iter_pos].
  - rewrite !IH, Pos2Nat.inj_xI.
    replace (S (2 * Pos.to_nat p)) with (Pos.to_nat p + (Pos.to_nat p + 1)) by lia.
    now rewrite !Nat.iter_add.
  - rewrite !IH, Pos2Nat.inj_xO.
    replace (2 * Pos.to_nat p) with (Pos.to_nat p + Pos.to_nat p) by lia.
    now rewrite Nat.iter_add.
  - reflexivity.
Qed.

Lemma digits2_shift (n : nat) (m : positive) :
  Zpos (digits2_pos (Nat.iter n xO m)) = (Zpos (digits2_pos m) + Z.of_nat n)%Z.
Proof.
  induction n as [|n IH]; [simpl; lia|].
  simpl Nat.iter. simpl digits2_pos. rewrite Pos2Z.inj_succ, IH. lia.
Qed.

Lemma mul_minus_one (x : number) :
  valid_binary prec emax x = true -> mul x (of_Z (-1) false) = SFopp x.
Proof.
  rewrite minus_one_eq.
  destruct x as [s|s| |s m e]; intros Hv.
  - destruct s; reflexivity.
  - destruct s; reflexivity.
  - reflexivity.
  - simpl in Hv. unfold bounded, canonical_mantissa in Hv.
    apply andb_true_iff in Hv. destruct Hv as [Hc Hb].
    apply Z.eqb_eq in Hc. apply Z.leb_le in Hb.
    unfold mul, SFmul. rewrite Pos.mul_comm.
    change (4503599627370496 * m)%positive with (Nat.iter 52 xO m).
    unfold binary_round_aux, shr_fexp, Zdigits2.
    rewrite (digits2_shift 52 m).
    replace (Zpos (digits2_pos m) + Z.of_nat 52 + (e + -52))%Z
      with (Zpos (digits2_pos m) + e)%Z by lia.
    rewrite Hc.
    replace (e - (e + -52))%Z with 52%Z by lia.
    unfold shr at 1. rewrite iter_pos_nat.
    change (Pos.to_nat 52) with 52%nat.
    unfold shr_record_of_loc. rewrite (iter_shr_shift 52 m).
    cbn [shr_m loc_of_shr_record round_nearest_even].
    replace (e + -52 + 52)%Z with e by lia.
    unfold Zdigits2. rewrite Hc, Z.sub_diag. cbn [shr shr_m].
    apply Z.leb_le in Hb. rewrite Hb. now destruct s.
Qed.

Lemma parseNmeaCoord_short (coord dir : string) :
  String.length coord < 4 -> parseNmeaCoord coord dir = None.
Proof.
  intros Hlen. unfold parseNmeaCoord. apply Nat.ltb_lt in Hlen.
  now rewrite Hlen, orb_true_r.
Qed.

Lemma parseNmeaCoord_digits (k : nat) (deg mins frac dir : string) :
  k = (if String.eqb dir "N" || String.eqb dir "S" then 2 else 3) ->
  String.length deg = k -> 2 <= k ->
  all_digits deg = true -> all_digits mins = true -> mins <> "" ->
  all_digits frac = true ->
  parseNmeaCoord (deg ++ mins ++ "." ++ frac) dir
  = Some (if String.eqb dir "S" || String.eqb dir "W"
          then mul (degrees_plus_minutes deg mins frac) (of_Z (-1) false)
          else degrees_plus_minutes deg mins frac).
Proof.
  intros Hk Hlen Hk2 Hd Hm Hne Hf.
  assert (Hdne : deg <> "") by (intros ->; simpl in Hlen; lia).
  unfold parseNmeaCoord.
  assert (Hlong : String.eqb (deg ++ mins ++ "." ++ frac) "" = false).
  { destruct deg; [now contradiction Hdne | reflexivity]. }
  assert (Hfour : Nat.ltb (String.length (deg ++ mins ++ "." ++ frac)) 4 = false).
  { apply Nat.ltb_ge. rewrite !length_app.
    destruct mins; [now contradiction Hne|]. simpl. lia. }
  rewrite Hlong, Hfour. simpl orb at 1. rewrite <- Hk, <- Hlen.
  rewrite slice_to_app, slice_from_app.
  rewrite (parseInt_digits deg Hd Hdne), (parseFloat_decimal mins frac Hm Hf Hne).
  reflexivity.
Qed.

(** C6.  For a coordinate field written as degree digits, minute digits,
    a point and fraction digits, with two degree digits for N and S and
    three for E and W, the decoder returns the binary64 value of degrees
    plus minutes over 60, as it is for N and E and multiplied by -1 for S
    and W; multiplying a binary64 value by -1 only flips its sign.  The
    field 4916.45 with N decodes to a value within 1e-13 of
    49 + 16.45/60 and within 1e-8 of 49.27416666.  A field shorter than 4
    characters, the empty one included, decodes to null. *)
Theorem parseNmeaCoord_decodes :
  forall (deg mins frac dir coord : string),
    (all_digits deg = true -> all_digits mins = true -> mins <> "" ->
     all_digits frac = true ->
       ((dir = "N" /\ String.length deg = 2) \/ (dir = "E" /\ String.length deg = 3) ->
          parseNmeaCoord (deg ++ mins ++ "." ++ frac) dir
          = Some (degrees_plus_minutes deg mins frac))
       /\
       ((dir = "S" /\ String.length deg = 2) \/ (dir = "W" /\ String.length deg = 3) ->
          parseNmeaCoord (deg ++ mins ++ "." ++ frac) dir
          = Some (mul (degrees_plus_minutes deg mins frac) (of_Z (-1) false))))
    /\ (forall v : number,
          valid_binary prec emax v = true -> mul v (of_Z (-1) false) = SFopp v)
    /\ (exists v, parseNmeaCoord "4916.45" "N" = Some v
                  /\ (Qabs (to_Q v - (49 + (1645 # 100) / 60)) < 1 # 10000000000000)%Q
                  /\ (Qabs (to_Q v - (4927416666 # 100000000)) < 1 # 100000000)%Q)
    /\ (String.length coord < 4 -> parseNmeaCoord coord dir = None).
Proof.
  intros deg mins frac dir coord. split; [|split; [exact mul_minus_one|split]].
  - intros Hd Hm Hne Hf. split.
    + intros [[-> Hlen] | [-> Hlen]].
      * now rewrite (parseNmeaCoord_digits 2 deg mins frac "N").
      * now rewrite (parseNmeaCoord_digits 3 deg mins frac "E"); [|reflexivity|assumption|lia|..].
    + intros [[-> Hlen] | [-> Hlen]].
      * now rewrite (parseNmeaCoord_digits 2 deg mins frac "S").
      * now rewrite (parseNmeaCoord_digits 3 deg mins frac "W"); [|reflexivity|assumption|lia|..].
  - eexists. split; [vm_compute; reflexivity|]. split; vm_compute; reflexivity.
  - apply parseNmeaCoord_short.
Qed.

Lemma parseNmeaCoord_decodes_witness :
  parseNmeaCoord "4807.038" "N" = Some (S754_finite false 6771907948439824 (-47))
  /\ parseNmeaCoord "01131.000" "E" = Some (S754_finite false 6483306963568777 (-49))
  /\ parseNmeaCoord "4807.038" "S" = Some (S754_finite true 6771907948439824 (-47))
  /\ parseNmeaCoord "01131.000" "W" = Some (S754_finite true 6483306963568777 (-49))
  /\ parseNmeaCoord "" "N" = None
  /\ parseNmeaCoord "491" "N" = None.
Proof.
  destruct (parseNmeaCoord_decodes "48" "07" "038" "N" "") as [Hn [_ [_ Hempty]]].
  destruct (parseNmeaCoord_decodes "011" "31" "000" "E" "491") as [He [_ [_ Hshort]]].
  destruct (parseNmeaCoord_decodes "48" "07" "038" "S" "") as [Hs _].
  destruct (parseNmeaCoord_decodes "011" "31" "000" "W" "") as [Hw _].
  assert (Hne07 : "07" <> "") by discriminate.
  assert (Hne31 : "31" <> "") by discriminate.
  split; [|split; [|split; [|split; [|split]]]].
  - change "4807.038" with ("48" ++ "07" ++ "." ++ "038")%string.
    rewrite (proj1 (Hn eq_refl eq_refl Hne07 eq_refl) (or_introl (conj eq_refl eq_refl))).
    vm_compute. reflexivity.
  - change "01131.000" with ("011" ++ "31" ++ "." ++ "000")%string.
    rewrite (proj1 (He eq_refl eq_refl Hne31 eq_refl) (or_intror (conj eq_refl eq_refl))).
    vm_compute. reflexivity.
  - change "4807.038" with ("48" ++ "07" ++ "." ++ "038")%string.
    rewrite (proj2 (Hs eq_refl eq_refl Hne07 eq_refl) (or_introl (conj eq_refl eq_refl))).
    vm_compute. reflexivity.
  - change "01131.000" with ("011" ++ "31" ++ "." ++ "000")%string.
    rewrite (proj2 (Hw eq_refl eq_refl Hne31 eq_refl) (or_intror (conj eq_refl eq_refl))).
    vm_compute. reflexivity.
  - apply Hempty. simpl. lia.
  - apply Hshort. simpl. lia.
Defined.

(** ** C7 and C8: the subscriber registry *)

Section Registry.

Variable k : nat.

Lemma remove_client_cons (y : nat) (cl : list nat) :
  remove_client k (y :: cl) = if Nat.eqb y k then cl else y :: remove_client k cl.
Proof.
  unfold remove_client. simpl. destruct (Nat.eqb y k); [reflexivity|].
  now destruct (JS.indexOf cl k).
Qed.

Lemma remove_client_absent (cl : list nat) :
  ~ In k cl -> remove_client k cl = cl.
Proof.
  induction cl as [|y cl IH]; intros Hk; [reflexivity|].
  rewrite remove_client_cons. destruct (Nat.eqb y k) eqn:Hy.
  - apply Nat.eqb_eq in Hy. exfalso. apply Hk. now left.
  - rewrite IH; [reflexivity|]. intros H. apply Hk. now right.
Qed.

Lemma remove_client_other (j : nat) (cl : list nat) :
  j <> k -> (In j (remove_client k cl) <-> In j cl).
Proof.
  intros Hjk. induction cl as [|y cl IH]; [reflexivity|].
  rewrite remove_client_cons. destruct (Nat.eqb y k) eqn:Hy.
  - apply Nat.eqb_eq in Hy. subst y. simpl. split; [auto|].
    intros [H|H]; [congruence | assumption].
  - simpl. now rewrite IH.
Qed.

Lemma remove_client_subset (j : nat) (cl : list nat) :
  In j (remove_client k cl) -> In j cl.
Proof.
  induction cl as [|y cl IH]; [auto|].
  rewrite remove_client_cons. destruct (Nat.eqb y k); simpl; tauto.
Qed.

Lemma remove_client_gone (cl : list nat) :
  NoDup cl -> ~ In k (remove_client k cl).
Proof.
  induction cl as [|y cl IH]; intros Hnd; [auto|].
  inversion Hnd as [|? ? Hy Hnd']; subst.
  rewrite remove_client_cons. destruct (Nat.eqb y k) eqn:Hyk.
  - apply Nat.eqb_eq in Hyk. now subst y.
  - apply Nat.eqb_neq in Hyk. simpl. intros [H|H]; [congruence | now apply IH].
Qed.

Lemma remove_client_NoDup (cl : list nat) :
  NoDup cl -> NoDup (remove_client k cl).
Proof.
  induction cl as [|y cl IH]; intros Hnd; [assumption|].
  inversion Hnd as [|? ? Hy Hnd']; subst.
  rewrite remove_client_cons. destruct (Nat.eqb y k); [assumption|].
  constructor; [|now apply IH].
  intros H. apply Hy. now apply remove_client_subset in H.
Qed.

(** Removing twice is removing once. *)
Lemma remove_client_idempotent (cl : list nat) :
  NoDup cl -> remove_client k (remove_client k cl) = remove_client k cl.
Proof. intros Hnd. apply remove_client_absent. now apply remove_client_gone. Qed.

(** The subscribers that stay keep their order. *)
Lemma remove_client_filter (cl : list nat) :
  NoDup cl -> remove_client k cl = filter (fun s => negb (Nat.eqb s k)) cl.
Proof.
  induction cl as [|y cl IH]; intros Hnd; [reflexivity|].
  inversion Hnd as [|? ? Hy Hnd']; subst.
  rewrite remove_client_cons. simpl. destruct (Nat.eqb y k) eqn:Hyk; simpl.
  - apply Nat.eqb_eq in Hyk. subst y.
    rewrite <- (IH Hnd'). symmetry. now apply remove_client_absent.
  - now rewrite IH.
Qed.

End Registry.

Lemma forEach_write_filter (sk : Sockets) (cl : list nat) (text : string) :
  forEach_write sk cl text
  = map (fun s => socket_write s text) (filter (fun s => writable (sk s)) cl).
Proof.
  unfold forEach_write. induction cl as [|y cl IH]; [reflexivity|].
  simpl. destruct (writable (sk y)); simpl; now rewrite IH.
Qed.

(** What one event does to the registry. *)
Lemma step_clients (cfg : Config) (sk : Sockets) (st st' : State) (ev : Event)
    (out : list Effect) :
  step cfg sk st ev = Done st' out ->
  clients st' = match ev with
                | TcpConnection s => clients st ++ [s]
                | SocketError s _ | SocketClose s => remove_client s (clients st)
                | _ => clients st
                end.
Proof.
  intros Hstep. destruct ev; simpl in Hstep; unfold done in Hstep.
  - injection Hstep as <- _. reflexivity.
  - injection Hstep as <- _. reflexivity.
  - injection Hstep as <- _. reflexivity.
  - discriminate.
  - injection Hstep as <- _. apply on_serial_data_clients.
  - destruct (ntrip st); injection Hstep as <- _; try reflexivity.
    unfold on_ntrip_response. now destruct (negb _).
  - destruct (ntrip st); injection Hstep as <- _; reflexivity.
  - injection Hstep as <- _. reflexivity.
  - injection Hstep as <- _. reflexivity.
  - injection Hstep as <- _. reflexivity.
  - injection Hstep as <- _. reflexivity.
  - injection Hstep as <- _. reflexivity.
Qed.

(** Every socket an event writes to is registered when the event is
    handled. *)
Lemma step_writes_registered (cfg : Config) (sk : Sockets) (st st' : State)
    (ev : Event) (out : list Effect) (s : nat) (t : string) :
  step cfg sk st ev = Done st' out ->
  In (socket_write s t) out -> In s (clients st).
Proof.
  intros Hstep Hin. destruct ev; simpl in Hstep; unfold done in Hstep.
  - injection Hstep as _ <-. simpl in Hin. destruct Hin as [Hin|[]]; discriminate.
  - injection Hstep as _ <-. simpl in Hin. destruct Hin as [Hin|[Hin|[]]]; discriminate.
  - injection Hstep as _ <-. simpl in Hin. destruct Hin as [Hin|[]]; discriminate.
  - discriminate.
  - injection Hstep as _ <-. rewrite on_serial_data_out in Hin.
    destruct (forwards cfg data); [|destruct Hin].
    now apply forEach_write_In in Hin.
  - destruct (ntrip st); injection Hstep as _ <-; try (now destruct Hin).
    unfold on_ntrip_response in Hin. destruct (negb _); simpl in Hin.
    + destruct Hin as [Hin|[Hin|[]]]; discriminate.
    + destruct Hin as [Hin|[]]; discriminate.
  - destruct (ntrip st); injection Hstep as _ <-; simpl in Hin;
      try (now destruct Hin).
  - injection Hstep as _ <-. unfold on_gga_interval in Hin.
    destruct (latestGGA st) as [g|]; [|destruct Hin].
    destruct (raw g) as [[|c r]|]; try (now destruct Hin).
    simpl in Hin. destruct Hin as [Hin|[Hin|[]]]; discriminate.
  - injection Hstep as _ <-. destruct Hin as [Hin|Hin]; [discriminate|].
    now apply forEach_write_In in Hin.
  - injection Hstep as _ <-. destruct Hin as [Hin|Hin]; [discriminate|].
    now apply forEach_write_In in Hin.
  - injection Hstep as _ <-. destruct Hin as [Hin|Hin]; [discriminate|].
    now apply forEach_write_In in Hin.
  - injection Hstep as _ <-. apply on_sigint_effects in Hin.
    destruct Hin as [Hin|[[s' [Hin _]]|[Hin|Hin]]]; discriminate.
Qed.

(** Only the SIGINT handler ends a socket, and it ends registered,
    writable sockets with its notice. *)
Lemma step_ends_registered (cfg : Config) (sk : Sockets) (st st' : State)
    (ev : Event) (out : list Effect) (s : nat) (t : string) :
  step cfg sk st ev = Done st' out ->
  In (socket_end s t) out ->
  ev = Sigint /\ In s (clients st) /\ writable (sk s) = true
  /\ t = ("Server shutting down" ++ LF)%string.
Proof.
  intros Hstep Hin. destruct ev; simpl in Hstep; unfold done in Hstep.
  - injection Hstep as _ <-. simpl in Hin. destruct Hin as [Hin|[]]; discriminate.
  - injection Hstep as _ <-. simpl in Hin. destruct Hin as [Hin|[Hin|[]]]; discriminate.
  - injection Hstep as _ <-. simpl in Hin. destruct Hin as [Hin|[]]; discriminate.
  - discriminate.
  - injection Hstep as _ <-. rewrite on_serial_data_out in Hin.
    destruct (forwards cfg data); [|destruct Hin].
    apply forEach_write_only_writes in Hin. destruct Hin as [s' Hin]. discriminate.
  - destruct (ntrip st); injection Hstep as _ <-; try (now destruct Hin).
    unfold on_ntrip_response in Hin. destruct (negb _); simpl in Hin.
    + destruct Hin as [Hin|[Hin|[]]]; discriminate.
    + destruct Hin as [Hin|[]]; discriminate.
  - destruct (ntrip st); injection Hstep as _ <-; simpl in Hin;
      try (now destruct Hin).
  - injection Hstep as _ <-. unfold on_gga_interval in Hin.
    destruct (latestGGA st) as [g|]; [|destruct Hin].
    destruct (raw g) as [[|c r]|]; try (now destruct Hin).
    simpl in Hin. destruct Hin as [Hin|[Hin|[]]]; discriminate.
  - injection Hstep as _ <-. destruct Hin as [Hin|Hin]; [discriminate|].
    apply forEach_write_only_writes in Hin. destruct Hin as [s' Hin]. discriminate.
  - injection Hstep as _ <-. destruct Hin as [Hin|Hin]; [discriminate|].
    apply forEach_write_only_writes in Hin. destruct Hin as [s' Hin]. discriminate.
  - injection Hstep as _ <-. destruct Hin as [Hin|Hin]; [discriminate|].
    apply forEach_write_only_writes in Hin. destruct Hin as [s' Hin]. discriminate.
  - injection Hstep as _ <-. apply on_sigint_effects in Hin.
    destruct Hin as [Hin|[[s' [Hin [Hs Hw]]]|[Hin|Hin]]]; try discriminate.
    injection Hin as -> ->. auto.
Qed.

Lemma step_total (cfg : Config) (sk : Sockets) (st : State) (ev : Event) :
  ev <> ServerDrop -> exists st' out, step cfg sk st ev = Done st' out.
Proof.
  destruct ev; intros Hev; simpl; unfold done; try (eexists; eexists; reflexivity).
  - now contradiction Hev.
  - destruct (ntrip st); eexists; eexists; reflexivity.
  - destruct (ntrip st); eexists; eexists; reflexivity.
Qed.

(** A run without a dropped connection reaches its end. *)
Lemma run_total (cfg : Config) (evs : list (Sockets * Event)) :
  forall st, never_drops evs = true -> exists st' out, run cfg st evs = Done st' out.
Proof.
  induction evs as [|[sk ev] evs IH]; intros st Hnd; simpl.
  - eexists; eexists; reflexivity.
  - assert (Hev : ev <> ServerDrop) by (intros ->; discriminate).
    assert (Hnd' : never_drops evs = true) by (destruct ev; simpl in Hnd; auto; discriminate).
    destruct (step_total cfg sk st ev Hev) as [st1 [out1 ->]].
    destruct (IH st1 Hnd') as [st2 [out2 ->]].
    eexists; eexists; reflexivity.
Qed.

(** A subscriber with no error and no close stays registered. *)
Lemma run_keeps_subscriber (cfg : Config) (j : nat) (evs : list (Sockets * Event)) :
  forall st st' out,
    run cfg st evs = Done st' out -> stays_connected j evs = true ->
    In j (clients st) -> In j (clients st').
Proof.
  induction evs as [|[sk ev] evs IH]; intros st st' out Hrun Hstay Hin; simpl in Hrun.
  - injection Hrun as <- _. assumption.
  - destruct (step cfg sk st ev) as [st1 out1|] eqn:Hstep; [|discriminate].
    destruct (run cfg st1 evs) as [st2 out2|] eqn:Hrest; [|discriminate].
    injection Hrun as <- _.
    apply (IH st1 st2 out2 Hrest).
    + destruct ev; simpl in Hstay; try assumption;
        apply andb_true_iff in Hstay; tauto.
    + rewrite (step_clients cfg sk st st1 ev out1 Hstep).
      destruct ev; try assumption.
      * apply in_or_app. now left.
      * simpl in Hstay. apply andb_true_iff in Hstay. destruct Hstay as [Hne _].
        apply negb_true_iff, Nat.eqb_neq in Hne.
        apply remove_client_other; [congruence | assumption].
      * simpl in Hstay. apply andb_true_iff in Hstay. destruct Hstay as [Hne _].
        apply negb_true_iff, Nat.eqb_neq in Hne.
        apply remove_client_other; [congruence | assumption].
Qed.

(** A socket that is not registered and does not connect again is written
    to by no event, and ended by none. *)
Lemma run_never_writes_removed (cfg : Config) (k : nat) (evs : list (Sockets * Event)) :
  forall st st' out,
    run cfg st evs = Done st' out -> never_reconnects k evs = true ->
    ~ In k (clients st) ->
    ~ In k (clients st')
    /\ forall t, ~ In (socket_write k t) out /\ ~ In (socket_end k t) out.
Proof.
  induction evs as [|[sk ev] evs IH]; intros st st' out Hrun Hnever Hout; simpl in Hrun.
  - injection Hrun as <- <-. split; [assumption | intros t; split; intros []].
  - destruct (step cfg sk st ev) as [st1 out1|] eqn:Hstep; [|discriminate].
    destruct (run cfg st1 evs) as [st2 out2|] eqn:Hrest; [|discriminate].
    injection Hrun as <- <-.
    assert (Hout1 : ~ In k (clients st1)).
    { rewrite (step_clients cfg sk st st1 ev out1 Hstep).
      destruct ev; try assumption.
      - simpl in Hnever. apply andb_true_iff in Hnever. destruct Hnever as [Hne _].
        apply negb_true_iff, Nat.eqb_neq in Hne.
        intros H. apply in_app_or in H. destruct H as [H|[H|[]]]; [auto | congruence].
      - intros H. apply Hout. now apply remove_client_subset in H.
      - intros H. apply Hout. now apply remove_client_subset in H. }
    assert (Hnever' : never_reconnects k evs = true).
    { destruct ev; simpl in Hnever; try assumption.
      apply andb_true_iff in Hnever. tauto. }
    destruct (IH st1 st2 out2 Hrest Hnever' Hout1) as [Hfin Hnot].
    split; [assumption|]. intros t.
    split; intros Hin; apply in_app_or in Hin; destruct Hin as [Hin|Hin].
    + apply Hout. exact (step_writes_registered cfg sk st st1 ev out1 k t Hstep Hin).
    + exact (proj1 (Hnot t) Hin).
    + apply Hout.
      exact (proj1 (proj2 (step_ends_registered cfg sk st st1 ev out1 k t Hstep Hin))).
    + exact (proj2 (Hnot t) Hin).
Qed.

(** A socket is registered once: the registry has no duplicate as long as
    each connection brings a socket object of its own. *)
Lemma step_keeps_NoDup (cfg : Config) (sk : Sockets) (st st' : State) (ev : Event)
    (out : list Effect) :
  step cfg sk st ev = Done st' out ->
  (forall s, ev = TcpConnection s -> ~ In s (clients st)) ->
  NoDup (clients st) -> NoDup (clients st').
Proof.
  intros Hstep Hfresh Hnd. rewrite (step_clients cfg sk st st' ev out Hstep).
  destruct ev; try assumption.
  - apply NoDup_app; [assumption | repeat constructor; intros [] |].
    intros s Hs [Heq|[]]. subst s. exact (Hfresh socket eq_refl Hs).
  - now apply remove_client_NoDup.
  - now apply remove_client_NoDup.
Qed.

(** The close of a socket that is not registered leaves the state. *)
Lemma on_socket_close_absent (sk : Sockets) (st : State) (k : nat) :
  ~ In k (clients st) -> fst (on_socket_close sk st k) = st.
Proof.
  intros Hk. unfold on_socket_close. cbn [fst].
  rewrite (remove_client_absent k (clients st) Hk). now destruct st.
Qed.


(** The sixth subscriber then receives the sentences. *)
Example sixth_subscriber_is_served :
  run (sample_cfg true) (sample_state [1; 2; 3; 4; 5])
      [(sample_sockets, TcpConnection 6); (sample_sockets, SerialData "$GPVTG,,T,,M,0.0,N")]
  = Done (sample_state [1; 2; 3; 4; 5; 6])
      (console_log "TCP NMEA client connected: 192.168.1.20:4006"
       :: map (fun s => socket_write s ("$GPVTG,,T,,M,0.0,N" ++ LF)) [1; 2; 3; 4; 5; 6]).
Proof. vm_compute. reflexivity. Qed.

(** The error of a subscriber whose address holds a percent sign: the
    listener gives [console.error] the text with the address as it is,
    and the message after it. *)
Example socket_error_log_arguments :
  step (sample_cfg false) link_local_sockets (sample_state [1; 2])
       (SocketError 2 "read ECONNRESET")
  = Done (sample_state [1])
      [console_error_format "Socket error from fe80::1%docker0:4002 -" ["read ECONNRESET"];
       socket_destroy 2].
Proof. vm_compute. reflexivity. Qed.



(** C8.  A forwarded sentence, with a line feed, is written to exactly the
    registered subscribers that are writable, each in its turn: whether
    [j] is written to depends on [j] alone, not on what the other sockets
    are or do (a failed write comes back later as the ['error'] event of
    its socket).  The error of subscriber [k] is handled: its listener
    calls [console.error] with the text that names the peer for first
    argument and the message of the error for second, destroys the
    socket, and removes [k] and only [k] from the registry, order kept.
    After it, as long as [j] has no error or close of its own, [j] stays
    registered and is written every forwarded sentence, while [k], unless
    it connects again, is written nothing, not even the notice of a
    shutdown.  Removing [k] again, as the close that follows the error
    does, changes nothing. *)
Theorem broadcast_survives_subscriber_failure :
  forall (cfg : Config) (sk : Sockets) (st : State) (data : string)
         (k j : nat) (message : string),
    NoDup (clients st) ->
    forwards cfg data = true ->
    In j (clients st) -> j <> k -> writable (sk j) = true ->
    let st_k := fst (on_socket_error sk st k message) in
    snd (on_serial_data cfg sk st data)
    = map (fun s => socket_write s (data ++ LF))
          (filter (fun s => writable (sk s)) (clients st))
    /\ (forall sk' : Sockets, writable (sk' j) = true ->
          In (socket_write j (data ++ LF)) (snd (on_serial_data cfg sk' st data)))
    /\ step cfg sk st (SocketError k message)
       = Done st_k [console_error_format ("Socket error from " ++ peer sk k ++ " -")
                                         [message];
                    socket_destroy k]
    /\ clients st_k = filter (fun s => negb (Nat.eqb s k)) (clients st)
    /\ ~ In k (clients st_k)
    /\ In j (clients st_k)
    /\ (forall evs : list (Sockets * Event),
          never_drops evs = true ->
          exists st2 out2,
            run cfg st_k evs = Done st2 out2
            /\ (stays_connected j evs = true ->
                  In j (clients st2)
                  /\ forall (sk2 : Sockets) (data2 : string),
                       forwards cfg data2 = true -> writable (sk2 j) = true ->
                       In (socket_write j (data2 ++ LF))
                          (snd (on_serial_data cfg sk2 st2 data2)))
            /\ (never_reconnects k evs = true ->
                  forall t, ~ In (socket_write k t) out2 /\ ~ In (socket_end k t) out2))
    /\ remove_client k (clients st_k) = clients st_k
    /\ (forall sk' : Sockets, fst (on_socket_close sk' st_k k) = st_k).
Proof.
  intros cfg sk st data k j message Hnd Hfw Hj Hjk Hw st_k.
  assert (Hgone : ~ In k (clients st_k)) by (apply remove_client_gone; exact Hnd).
  assert (Hstay : In j (clients st_k)) by (apply remove_client_other; assumption).
  assert (Hidem : remove_client k (clients st_k) = clients st_k)
    by (apply remove_client_absent; exact Hgone).
  split; [|split; [|split; [|split; [|split; [|split; [|split; [|split]]]]]]].
  - rewrite on_serial_data_out, Hfw. apply forEach_write_filter.
  - intros sk' Hw'. rewrite on_serial_data_out, Hfw. apply forEach_write_In. auto.
  - reflexivity.
  - apply remove_client_filter. exact Hnd.
  - exact Hgone.
  - exact Hstay.
  - intros evs Hdrops.
    destruct (run_total cfg evs st_k Hdrops) as [st2 [out2 Hrun]].
    exists st2, out2. split; [exact Hrun|]. split.
    + intros Hconn.
      pose proof (run_keeps_subscriber cfg j evs st_k st2 out2 Hrun Hconn Hstay) as Hj2.
      split; [exact Hj2|].
      intros sk2 data2 Hfw2 Hw2. rewrite on_serial_data_out, Hfw2.
      apply forEach_write_In. auto.
    + intros Hnever.
      apply (run_never_writes_removed cfg k evs st_k st2 out2 Hrun Hnever Hgone).
  - exact Hidem.
  - intros sk'. now apply on_socket_close_absent.
Qed.

Lemma broadcast_survives_subscriber_failure_witness :
  snd (on_serial_data (sample_cfg false) sample_sockets (sample_state [1; 2; 3]) gga_fix1)
  = [socket_write 1 (gga_fix1 ++ LF); socket_write 2 (gga_fix1 ++ LF);
     socket_write 3 (gga_fix1 ++ LF)]
  /\ step (sample_cfg false) sample_sockets (sample_state [1; 2; 3])
          (SocketError 2 "ECONNRESET")
     = Done (sample_state [1; 3])
         [console_error_format "Socket error from 192.168.1.20:4002 -" ["ECONNRESET"];
          socket_destroy 2]
  /\ clients (fst (on_socket_error sample_sockets (sample_state [1; 2; 3]) 2 "ECONNRESET"))
     = [1; 3]
  /\ exists st2 out2,
       run (sample_cfg false)
           (fst (on_socket_error sample_sockets (sample_state [1; 2; 3]) 2 "ECONNRESET"))
           [(sample_sockets, SocketClose 2); (sample_sockets, SerialData gga_fix4);
            (sample_sockets, Sigint)]
       = Done st2 out2
       /\ In 3 (clients st2)
       /\ forall t, ~ In (socket_write 2 t) out2 /\ ~ In (socket_end 2 t) out2.
Proof.
  assert (Hnd : NoDup (clients (sample_state [1; 2; 3]))).
  { simpl. repeat constructor; simpl; intros H;
      repeat (destruct H as [H|H]; [discriminate H|]); exact H. }
  assert (Hin : In 3 (clients (sample_state [1; 2; 3]))) by (simpl; auto).
  assert (Hne : 3 <> 2) by discriminate.
  pose proof (broadcast_survives_subscriber_failure (sample_cfg false) sample_sockets
                (sample_state [1; 2; 3]) gga_fix1 2 3 "ECONNRESET"
                Hnd eq_refl Hin Hne eq_refl) as H.
  cbv zeta in H. destruct H as [Hout [_ [Hstep [Hcl [_ [_ [Hrun _]]]]]]].
  split; [|split; [|split]].
  - rewrite Hout. reflexivity.
  - rewrite Hstep. vm_compute. reflexivity.
  - rewrite Hcl. reflexivity.
  - destruct (Hrun [(sample_sockets, SocketClose 2); (sample_sockets, SerialData gga_fix4);
                    (sample_sockets, Sigint)]
                eq_refl) as [st2 [out2 [Hdone [Hkeep Hnone]]]].
    exists st2, out2. split; [exact Hdone|]. split.
    + apply Hkeep. reflexivity.
    + apply Hnone. reflexivity.
Defined.

(** ** C9: the correction client *)

Lemma serial_writes_app (a b : list Effect) :
  serial_writes (a ++ b) = serial_writes a ++ serial_writes b.
Proof.
  induction a as [|e a IH]; [reflexivity|].
  destruct e; simpl; now rewrite IH.
Qed.

Lemma forEach_write_no_serial (sk : Sockets) (cl : list nat) (text : string) :
  serial_writes (forEach_write sk cl text) = [].
Proof.
  induction cl as [|y cl IH]; [reflexivity|].
  unfold forEach_write in *. simpl. now destruct (writable (sk y)).
Qed.

Lemma forEach_end_no_serial (sk : Sockets) (cl : list nat) (text : string) :
  forall ended, serial_writes (forEach_end sk cl text ended) = [].
Proof.
  induction cl as [|y cl IH]; intros ended; [reflexivity|].
  simpl. destruct (writable (sk y) && negb (existsb (Nat.eqb y) ended)); simpl; apply IH.
Qed.

Lemma on_sigint_no_serial (sk : Sockets) (st : State) :
  serial_writes (snd (on_sigint sk st)) = [].
Proof.
  unfold on_sigint. cbn [snd serial_writes].
  now rewrite serial_writes_app, forEach_end_no_serial.
Qed.

(** Once the response has come, an event leaves the phase of the client
    as it is, and writes to the serial port the chunk it delivers when
    the response was a 200, nothing otherwise. *)
Lemma step_after_response (cfg : Config) (sk : Sockets) (st st' : State)
    (ev : Event) (out : list Effect) :
  ntrip st <> ntrip_requested ->
  step cfg sk st ev = Done st' out ->
  ntrip st' = ntrip st
  /\ serial_writes out
     = match ntrip st with
       | ntrip_streaming => ntrip_chunks [(sk, ev)]
       | _ => []
       end.
Proof.
  intros Hphase Hstep.
  assert (Hnil : match ntrip st with
                 | ntrip_streaming => @nil (list Byte.byte)
                 | _ => []
                 end = []) by now destruct (ntrip st).
  destruct ev; simpl in Hstep; unfold done in Hstep; simpl ntrip_chunks;
    try rewrite Hnil.
  - injection Hstep as <- <-. now split.
  - injection Hstep as <- <-. now split.
  - injection Hstep as <- <-. now split.
  - discriminate.
  - injection Hstep as <- <-. split.
    + rewrite on_serial_data_state.
      destruct (JS.includes _ _); [apply track_position_ntrip | reflexivity].
    + rewrite on_serial_data_out. destruct (forwards cfg data); [|reflexivity].
      apply forEach_write_no_serial.
  - destruct (ntrip st) eqn:E; [now contradiction Hphase | |];
      injection Hstep as <- <-; (split; [exact E | reflexivity]).
  - destruct (ntrip st) eqn:E; [now contradiction Hphase | |];
      injection Hstep as <- <-; (split; [exact E | reflexivity]).
  - injection Hstep as <- <-. split; [reflexivity|].
    unfold on_gga_interval. destruct (latestGGA st) as [g|]; [|reflexivity].
    now destruct (raw g) as [[|c r]|].
  - injection Hstep as <- <-. split; [reflexivity | apply forEach_write_no_serial].
  - injection Hstep as <- <-. split; [reflexivity | apply forEach_write_no_serial].
  - injection Hstep as <- <-. split; [reflexivity | apply forEach_write_no_serial].
  - injection Hstep as <- <-. split; [reflexivity | apply on_sigint_no_serial].
Qed.

Lemma run_after_response (cfg : Config) (evs : list (Sockets * Event)) :
  forall st st' out,
    ntrip st <> ntrip_requested ->
    run cfg st evs = Done st' out ->
    serial_writes out
    = match ntrip st with
      | ntrip_streaming => ntrip_chunks evs
      | _ => []
      end.
Proof.
  induction evs as [|[sk ev] evs IH]; intros st st' out Hphase Hrun; simpl in Hrun.
  - injection Hrun as _ <-. now destruct (ntrip st).
  - destruct (step cfg sk st ev) as [st1 out1|] eqn:Hstep; [|discriminate].
    destruct (run cfg st1 evs) as [st2 out2|] eqn:Hrest; [|discriminate].
    injection Hrun as _ <-.
    destruct (step_after_response cfg sk st st1 ev out1 Hphase Hstep) as [Hsame Hout1].
    assert (Hphase1 : ntrip st1 <> ntrip_requested) by now rewrite Hsame.
    rewrite serial_writes_app, Hout1, (IH st1 st2 out2 Hphase1 Hrest), Hsame.
    destruct (ntrip st); try reflexivity.
    simpl ntrip_chunks at 1. now destruct ev.
Qed.

(** C9.  The response of the correction service is handled once.  When
    its status is 200, every body chunk that arrives afterwards is
    written to the serial port as it came, in order of arrival, and
    nothing else is written there.  When its status is not 200, the
    failure is logged with the status, the response is drained, and
    nothing is ever written to the serial port. *)
Theorem correction_chunks_forwarded_verbatim :
  forall (cfg : Config) (sk : Sockets) (st : State)
         (statusCode : nat) (statusMessage : string),
    ntrip st = ntrip_requested ->
    exists st1 out1,
      step cfg sk st (NtripResponse statusCode statusMessage) = Done st1 out1
      /\ serial_writes out1 = []
      /\ (statusCode = 200 ->
            (forall (sk' : Sockets) (chunk : list Byte.byte),
               step cfg sk' st1 (NtripData chunk) = Done st1 [serial_port_write chunk])
            /\ forall evs : list (Sockets * Event),
                 never_drops evs = true ->
                 exists st2 out2,
                   run cfg st1 evs = Done st2 out2
                   /\ serial_writes out2 = ntrip_chunks evs)
      /\ (statusCode <> 200 ->
            out1 = [console_error ("NTRIP connection failed: " ++ show_nat statusCode
                                     ++ " " ++ statusMessage);
                    res_resume]
            /\ forall evs : list (Sockets * Event),
                 never_drops evs = true ->
                 exists st2 out2,
                   run cfg st1 evs = Done st2 out2
                   /\ serial_writes out2 = []).
Proof.
  intros cfg sk st statusCode statusMessage Hreq.
  simpl. rewrite Hreq. unfold done, on_ntrip_response.
  destruct (Nat.eqb statusCode 200) eqn:Hcode; simpl.
  - apply Nat.eqb_eq in Hcode. eexists. eexists. split; [reflexivity|].
    split; [reflexivity|]. split; [|intros Hne; now contradiction Hne].
    intros _. split; [reflexivity|].
    intros evs Hdrops.
    destruct (run_total cfg evs
                {| clients := clients st; latestGGA := latestGGA st;
                   ntrip := ntrip_streaming |} Hdrops) as [st2 [out2 Hrun]].
    exists st2, out2. split; [exact Hrun|].
    apply (run_after_response cfg evs
             {| clients := clients st; latestGGA := latestGGA st;
                ntrip := ntrip_streaming |} st2 out2); [discriminate | exact Hrun].
  - apply Nat.eqb_neq in Hcode. eexists. eexists. split; [reflexivity|].
    split; [reflexivity|]. split; [intros Heq; now contradiction Hcode|].
    intros _. split; [reflexivity|].
    intros evs Hdrops.
    destruct (run_total cfg evs
                {| clients := clients st; latestGGA := latestGGA st;
                   ntrip := ntrip_refused |} Hdrops) as [st2 [out2 Hrun]].
    exists st2, out2. split; [exact Hrun|].
    apply (run_after_response cfg evs
             {| clients := clients st; latestGGA := latestGGA st;
                ntrip := ntrip_refused |} st2 out2); [discriminate | exact Hrun].
Qed.

Lemma correction_chunks_forwarded_verbatim_witness :
  (exists st1 out1 st2 out2,
     step (sample_cfg true) sample_sockets (sample_state [1]) (NtripResponse 200 "OK")
     = Done st1 out1
     /\ run (sample_cfg true) st1 sample_events = Done st2 out2
     /\ serial_writes out2 = [rtcm_chunk_1; rtcm_chunk_2])
  /\ (exists st1 out1 st2 out2,
        step (sample_cfg true) sample_sockets (sample_state [1])
             (NtripResponse 401 "Unauthorized")
        = Done st1 out1
        /\ out1 = [console_error "NTRIP connection failed: 401 Unauthorized"; res_resume]
        /\ run (sample_cfg true) st1 sample_events = Done st2 out2
        /\ serial_writes out2 = []).
Proof.
  split.
  - destruct (correction_chunks_forwarded_verbatim (sample_cfg true) sample_sockets
                (sample_state [1]) 200 "OK" eq_refl)
      as [st1 [out1 [Hstep [_ [Hok _]]]]].
    destruct (Hok eq_refl) as [_ Hrun].
    destruct (Hrun sample_events eq_refl) as [st2 [out2 [Hdone Hwrites]]].
    exists st1, out1, st2, out2. split; [exact Hstep|]. split; [exact Hdone|].
    rewrite Hwrites. reflexivity.
  - destruct (correction_chunks_forwarded_verbatim (sample_cfg true) sample_sockets
                (sample_state [1]) 401 "Unauthorized" eq_refl)
      as [st1 [out1 [Hstep [_ [_ Hfail]]]]].
    assert (Hcode : 401 <> 200) by discriminate.
    destruct (Hfail Hcode) as [Hlog Hrun].
    destruct (Hrun sample_events eq_refl) as [st2 [out2 [Hdone Hwrites]]].
    exists st1, out1, st2, out2. split; [exact Hstep|]. split.
    + rewrite Hlog. reflexivity.
    + split; [exact Hdone | exact Hwrites].
Defined.

(** * Further properties of the relay *)

(** ** Splitting a sentence *)

Lemma split_comma_cons (c : ascii) (s : string) :
  JS.split_comma (String c s)
  = if Ascii.eqb c "," then EmptyString :: JS.split_comma s
    else match JS.split_comma s with
         | [] => [String c EmptyString]
         | field :: fields => String c field :: fields
         end.
Proof. reflexivity. Qed.

Lemma split_comma_length (s : string) :
  List.length (JS.split_comma s) = S (count_commas s).
Proof.
  induction s as [|c s IH]; [reflexivity|].
  rewrite split_comma_cons. simpl count_commas.
  destruct (Ascii.eqb c ","); simpl; [now rewrite IH|].
  destruct (JS.split_comma s); simpl in *; [discriminate | exact IH].
Qed.

Lemma join_comma_cons (p q : string) (parts : list string) :
  join_comma (p :: q :: parts) = (p ++ String "," (join_comma (q :: parts)))%string.
Proof. reflexivity. Qed.

Lemma split_comma_join (s : string) : join_comma (JS.split_comma s) = s.
Proof.
  induction s as [|c s IH]; [reflexivity|].
  rewrite split_comma_cons.
  destruct (Ascii.eqb c ",") eqn:Hc.
  - apply Ascii.eqb_eq in Hc. subst c.
    pose proof (split_comma_nonempty s) as Hne.
    destruct (JS.split_comma s) as [|q parts]; [now contradiction Hne|].
    rewrite join_comma_cons, IH. reflexivity.
  - pose proof (split_comma_nonempty s) as Hne.
    destruct (JS.split_comma s) as [|q parts]; [now contradiction Hne|].
    destruct parts as [|r parts].
    + simpl in IH. simpl. now rewrite IH.
    + rewrite join_comma_cons in IH. rewrite join_comma_cons, <- IH. reflexivity.
Qed.

Lemma split_comma_no_comma (s : string) :
  Forall (fun field => count_commas field = 0) (JS.split_comma s).
Proof.
  induction s as [|c s IH]; [repeat constructor|].
  rewrite split_comma_cons.
  destruct (Ascii.eqb c ",") eqn:Hc.
  - constructor; [reflexivity | exact IH].
  - destruct (JS.split_comma s) as [|q parts].
    + constructor; [simpl; now rewrite Hc | constructor].
    + inversion IH as [|? ? Hq Hparts]; subst.
      constructor; [simpl; now rewrite Hc | exact Hparts].
Qed.

(** X1.  Splitting a sentence at its commas loses nothing: the fields,
    joined by commas, are the sentence; no field holds a comma; there is
    one field more than there are commas.  So [parseGGA] returns a fix
    exactly for the sentences with at least 14 commas, and the time and
    the fix quality of that fix are the 2nd and the 7th field as they
    stand. *)
Theorem parseGGA_fields_of_sentence :
  forall (sentence : string),
    join_comma (JS.split_comma sentence) = sentence
    /\ Forall (fun field => count_commas field = 0) (JS.split_comma sentence)
    /\ List.length (JS.split_comma sentence) = S (count_commas sentence)
    /\ (parseGGA sentence <> None <-> 14 <= count_commas sentence)
    /\ (forall gga, parseGGA sentence = Some gga ->
          JS.at_index (JS.split_comma sentence) 1 = Some (time gga)
          /\ JS.at_index (JS.split_comma sentence) 6 = Some (fix_ gga)
          /\ raw gga = None).
Proof.
  intros sentence.
  split; [apply split_comma_join|].
  split; [apply split_comma_no_comma|].
  split; [apply split_comma_length|].
  split.
  - rewrite parseGGA_None, split_comma_length. lia.
  - intros gga Hgga. unfold parseGGA in Hgga.
    destruct (Nat.ltb (List.length (JS.split_comma sentence)) 15) eqn:Hlt; [discriminate|].
    apply Nat.ltb_ge in Hlt. injection Hgga as <-. simpl.
    unfold JS.at_index, part.
    destruct (JS.split_comma sentence) as [|f0 [|f1 [|f2 [|f3 [|f4 [|f5 [|f6 rest]]]]]]];
      simpl in Hlt; try lia.
    repeat split.
Qed.

Lemma parseGGA_fields_of_sentence_witness :
  parseGGA gga_fix1 <> None
  /\ JS.at_index (JS.split_comma gga_fix1) 6 = Some "1".
Proof.
  destruct (parseGGA_fields_of_sentence gga_fix1) as [_ [_ [_ [Hiff Hfields]]]].
  assert (Hsome : parseGGA gga_fix1 <> None) by (apply Hiff; vm_compute; lia).
  split; [exact Hsome|].
  destruct (parseGGA gga_fix1) as [gga|] eqn:Hgga; [|now contradiction Hsome].
  destruct (Hfields gga eq_refl) as [_ [Hfix _]]. rewrite Hfix.
  vm_compute in Hgga. injection Hgga as <-. reflexivity.
Defined.

(** ** The type of a line and the allow list *)

Lemma substring_length (n m : nat) (s : string) :
  String.length (String.substring n m s) = Nat.min m (String.length s - n).
Proof.
  revert n m. induction s as [|c s IH]; intros n m.
  - destruct n, m; reflexivity.
  - destruct n as [|n].
    + destruct m as [|m]; [reflexivity|]. simpl. now rewrite IH, Nat.sub_0_r.
    + simpl. apply IH.
Qed.

Lemma NMEA_SUFFIX_length (data : string) :
  String.length (NMEA_SUFFIX data) = Nat.min 3 (String.length data - 3).
Proof.
  unfold NMEA_SUFFIX, JS.substring. rewrite !substring_length. lia.
Qed.

Lemma length_zero (s : string) : String.length s = 0 -> s = "".
Proof. destruct s; [reflexivity | discriminate]. Qed.

Lemma includes_filter (l : list string) (x : string) (keep : string -> bool) :
  keep x = true -> JS.includes (filter keep l) x = JS.includes l x.
Proof.
  intros Hx. unfold JS.includes. induction l as [|y l IH]; [reflexivity|].
  simpl. destruct (keep y) eqn:Hy; simpl.
  - now rewrite IH.
  - rewrite IH. destruct (String.eqb x y) eqn:Hxy; [|reflexivity].
    apply String.eqb_eq in Hxy. congruence.
Qed.

(** X2.  The type of a line has at most three characters (three when the
    line has six or more), so an entry of the allow list longer than three
    characters matches no line: the handler behaves as if the list held
    only its entries of three characters or fewer. *)
Theorem long_allow_entries_are_dead :
  forall (cfg : Config) (sk : Sockets) (st : State) (data : string),
    String.length (NMEA_SUFFIX data) = Nat.min 3 (String.length data - 3)
    /\ on_serial_data cfg sk st data
       = on_serial_data
           (with_allow_list cfg
              (filter (fun t => Nat.leb (String.length t) 3) (allow_list cfg)))
           sk st data.
Proof.
  intros cfg sk st data. split; [apply NMEA_SUFFIX_length|].
  unfold on_serial_data. simpl.
  rewrite (includes_filter (allow_list cfg) (NMEA_SUFFIX data)); [reflexivity|].
  apply Nat.leb_le. rewrite NMEA_SUFFIX_length. lia.
Qed.

Lemma short_line_no_prefix (p data : string) :
  String.length data < String.length p -> JS.startsWith p data = false.
Proof.
  intros Hlen. destruct (JS.startsWith p data) eqn:Hp; [|reflexivity].
  apply startsWith_substring in Hp. apply (f_equal String.length) in Hp.
  rewrite substring_length in Hp. lia.
Qed.

Lemma split_comma_app (a b : string) :
  JS.split_comma (a ++ String "," b) = JS.split_comma a ++ JS.split_comma b.
Proof.
  induction a as [|c a IH]; [reflexivity|].
  change ((String c a ++ String "," b)%string) with (String c (a ++ String "," b)%string).
  rewrite !split_comma_cons, IH.
  destruct (Ascii.eqb c ","); [reflexivity|].
  pose proof (split_comma_nonempty a) as Hne.
  destruct (JS.split_comma a) as [|q parts]; [now contradiction Hne | reflexivity].
Qed.

Lemma split_comma_trailing (s : string) : In "" (JS.split_comma (s ++ ",")%string).
Proof.
  change ((s ++ ",")%string) with ((s ++ String "," "")%string).
  rewrite split_comma_app. apply in_or_app. right. now left.
Qed.

(** X3.  A line of three characters or fewer, the empty line included,
    has the empty type: it is never stored and never tested by the RTK
    gate, and it is written to the writable subscribers exactly when the
    allow list holds the empty string.  The allow list of the environment
    holds it when TCP_ALLOW ends with a comma. *)
Theorem short_lines_have_empty_type :
  forall (cfg : Config) (sk : Sockets) (st : State) (data : string),
    String.length data <= 3 ->
    NMEA_SUFFIX data = ""
    /\ on_serial_data cfg sk st data
       = (st, if JS.includes (allow_list cfg) ""
              then forEach_write sk (clients st) (data ++ LF) else [])
    /\ (forall (env : ProcessEnv) (s : string),
          env "TCP_ALLOW" = Some (s ++ ",")%string -> In "" (TCP_ALLOW_LIST env)).
Proof.
  intros cfg sk st data Hlen.
  assert (Hsuf : NMEA_SUFFIX data = "").
  { apply length_zero. rewrite NMEA_SUFFIX_length. lia. }
  split; [exact Hsuf|]. split.
  - assert (Hno : forall p, String.length p = 6 -> JS.startsWith p data = false)
      by (intros p Hp; apply short_line_no_prefix; lia).
    rewrite (surjective_pairing (on_serial_data cfg sk st data)).
    rewrite on_serial_data_state, on_serial_data_out. unfold forwards, track_position,
      gga_not_fixed, rmc_not_fixed.
    rewrite !Hno by reflexivity. rewrite Hsuf. simpl.
    rewrite andb_false_r, andb_true_r.
    now destruct (JS.includes (allow_list cfg) "").
  - intros env s Henv. unfold TCP_ALLOW_LIST, TCP_ALLOW. rewrite Henv.
    assert (Hor : JS.or_string (Some (s ++ ",")%string) "RMC,VTG,GGA" = (s ++ ",")%string)
      by (destruct s; reflexivity).
    rewrite Hor. apply split_comma_trailing.
Qed.

Lemma short_lines_have_empty_type_witness :
  on_serial_data (sample_cfg true) sample_sockets (sample_state [1]) "" = (sample_state [1], [])
  /\ on_serial_data (config_of_env env_trailing_comma) sample_sockets (sample_state [1]) "$G"
     = (sample_state [1], [socket_write 1 ("$G" ++ LF)]).
Proof.
  assert (H0 : String.length "" <= 3) by (simpl; lia).
  assert (H2 : String.length "$G" <= 3) by (simpl; lia).
  destruct (short_lines_have_empty_type (sample_cfg true) sample_sockets
              (sample_state [1]) "" H0) as [_ [Hempty _]].
  destruct (short_lines_have_empty_type (config_of_env env_trailing_comma) sample_sockets
              (sample_state [1]) "$G" H2) as [_ [Hshort Hin]].
  split.
  - rewrite Hempty. reflexivity.
  - rewrite Hshort.
    assert (Hinc : JS.includes (allow_list (config_of_env env_trailing_comma)) "" = true).
    { apply includes_In. apply (Hin env_trailing_comma "GGA,RMC"). reflexivity. }
    rewrite Hinc. reflexivity.
Defined.

(** ** Edge cases of the coordinate decoder *)

Lemma parseInt_no_digit (s : string) : leading_digits s = [] -> parseInt s = NaN.
Proof.
  unfold leading_digits, parseInt. destruct (take_sign (trimStart s)) as [neg body].
  simpl. now intros ->.
Qed.

Lemma add_NaN_r (x : number) : add x NaN = NaN.
Proof. now destruct x. Qed.

Lemma div_NaN_l (y : number) : div NaN y = NaN.
Proof. reflexivity. Qed.

(** X4.  A coordinate field of four characters or more never decodes to
    null.  Any direction other than N, S and W is handled as E: three
    degree digits, no change of sign.  When the degree part has no leading
    digit, or the minutes are not a number, the result is NaN, not
    null. *)
Theorem parseNmeaCoord_never_null_when_long :
  forall (coord dir : string),
    (dir <> "N" -> dir <> "S" -> dir <> "W" ->
       parseNmeaCoord coord dir = parseNmeaCoord coord "E")
    /\ (4 <= String.length coord ->
          (exists v, parseNmeaCoord coord dir = Some v)
          /\ forall k, k = (if String.eqb dir "N" || String.eqb dir "S" then 2 else 3) ->
               leading_digits (JS.slice_to k coord) = []
               \/ parseFloat (JS.slice_from k coord) = NaN ->
               parseNmeaCoord coord dir = Some NaN).
Proof.
  intros coord dir. split.
  - intros HN HS HW. unfold parseNmeaCoord.
    apply String.eqb_neq in HN, HS, HW. now rewrite HN, HS, HW.
  - intros Hlen.
    assert (Hguard : String.eqb coord "" || Nat.ltb (String.length coord) 4 = false).
    { apply orb_false_iff. split.
      - destruct coord; [simpl in Hlen; lia | reflexivity].
      - apply Nat.ltb_ge. exact Hlen. }
    unfold parseNmeaCoord. rewrite Hguard. split; [eexists; reflexivity|].
    intros k -> Hbad.
    assert (Hval : add (parseInt (JS.slice_to
                          (if String.eqb dir "N" || String.eqb dir "S" then 2 else 3) coord))
                       (div (parseFloat (JS.slice_from
                          (if String.eqb dir "N" || String.eqb dir "S" then 2 else 3) coord))
                          (of_Z 60 false)) = NaN).
    { destruct Hbad as [Hdeg|Hmin].
      - now rewrite (parseInt_no_digit _ Hdeg).
      - rewrite Hmin, div_NaN_l. apply add_NaN_r. }
    rewrite Hval. now destruct (String.eqb dir "S" || String.eqb dir "W").
Qed.

Lemma parseNmeaCoord_never_null_when_long_witness :
  parseNmeaCoord "01131.000" "" = parseNmeaCoord "01131.000" "E"
  /\ parseNmeaCoord "ab07.038" "N" = Some NaN
  /\ parseNmeaCoord "48--.---" "S" = Some NaN.
Proof.
  destruct (parseNmeaCoord_never_null_when_long "01131.000" "") as [Hdir _].
  destruct (parseNmeaCoord_never_null_when_long "ab07.038" "N") as [_ Hdeg].
  destruct (parseNmeaCoord_never_null_when_long "48--.---" "S") as [_ Hmin].
  split; [|split].
  - apply Hdir; discriminate.
  - assert (Hlen : 4 <= String.length "ab07.038") by (simpl; lia).
    apply (proj2 (Hdeg Hlen) 2 eq_refl). left. reflexivity.
  - assert (Hlen : 4 <= String.length "48--.---") by (simpl; lia).
    apply (proj2 (Hmin Hlen) 2 eq_refl). right. vm_compute. reflexivity.
Defined.

(** ** Configuration and helpers *)

Lemma or_number_truthy (x d : number) : truthy d = true -> truthy (or_number x d) = true.
Proof. intros Hd. unfold or_number. now destruct (truthy x) eqn:Hx. Qed.

Lemma parseInt_zero_digits (s : string) :
  digits_value (leading_digits s) = 0%N -> truthy (parseInt s) = false.
Proof.
  unfold leading_digits, parseInt. destruct (take_sign (trimStart s)) as [neg body].
  simpl. intros Hzero. destruct (fst (take_digits body)) as [|d ds]; [reflexivity|].
  rewrite Hzero. now destruct neg.
Qed.

(** X5.  The maximum number of clients is never zero and never NaN: it is
    5 when TCP_MAX_CLIENTS is unset, and also when its value has no
    leading digit or leading digits that write zero, so a limit of zero
    cannot be configured. *)
Theorem max_clients_falls_back_to_five :
  forall (env : ProcessEnv),
    truthy (TCP_MAX_CLIENTS env) = true
    /\ (env "TCP_MAX_CLIENTS" = None -> TCP_MAX_CLIENTS env = of_Z 5 false)
    /\ (forall v, env "TCP_MAX_CLIENTS" = Some v ->
          digits_value (leading_digits v) = 0%N ->
          TCP_MAX_CLIENTS env = of_Z 5 false).
Proof.
  intros env. split; [|split].
  - unfold TCP_MAX_CLIENTS. now apply or_number_truthy.
  - unfold TCP_MAX_CLIENTS. now intros ->.
  - intros v Hv Hzero. unfold TCP_MAX_CLIENTS, or_number.
    now rewrite Hv, (parseInt_zero_digits v Hzero).
Qed.

Lemma max_clients_falls_back_to_five_witness :
  TCP_MAX_CLIENTS env_unset = of_Z 5 false
  /\ TCP_MAX_CLIENTS env_trailing_comma = of_Z 5 false.
Proof.
  split.
  - apply (max_clients_falls_back_to_five env_unset). reflexivity.
  - apply (proj2 (proj2 (max_clients_falls_back_to_five env_trailing_comma))
             " 000 clients"); reflexivity.
Defined.

Lemma slice_to_from (n : nat) (s : string) :
  (JS.slice_to n s ++ JS.slice_from n s)%string = s.
Proof.
  unfold JS.slice_to. revert n. induction s as [|c s IH]; intros n.
  - now destruct n.
  - destruct n as [|n]; [reflexivity|]. simpl. now rewrite IH.
Qed.

Lemma startsWith_app (p s : string) : JS.startsWith p (p ++ s) = true.
Proof.
  unfold JS.startsWith. apply String.prefix_correct. exact (slice_to_app p s).
Qed.

(** X6.  [cleanAddress] takes the prefix ::ffff: off an address that
    starts with it, once, and leaves any other address as it is: the
    address is what it returns, or the prefix followed by what it
    returns. *)
Theorem cleanAddress_strips_one_prefix :
  forall (addr : string),
    cleanAddress ("::ffff:" ++ addr) = addr
    /\ (JS.startsWith "::ffff:" addr = false -> cleanAddress addr = addr)
    /\ (JS.startsWith "::ffff:" addr = true ->
          addr = ("::ffff:" ++ cleanAddress addr)%string).
Proof.
  intros addr. split; [|split].
  - unfold cleanAddress. rewrite startsWith_app.
    exact (slice_from_app "::ffff:" addr).
  - intros Hno. unfold cleanAddress. now rewrite Hno.
  - intros Hyes. unfold cleanAddress. rewrite Hyes.
    apply startsWith_substring in Hyes.
    rewrite <- (slice_to_from 7 addr) at 1. unfold JS.slice_to.
    simpl String.length in Hyes. now rewrite Hyes.
Qed.

Lemma cleanAddress_strips_one_prefix_witness :
  cleanAddress "192.168.1.20" = "192.168.1.20"
  /\ cleanAddress "::ffff:::ffff:10.0.0.7" = "::ffff:10.0.0.7".
Proof.
  split.
  - exact (proj1 (proj2 (cleanAddress_strips_one_prefix "192.168.1.20")) eq_refl).
  - exact (proj1 (cleanAddress_strips_one_prefix "::ffff:10.0.0.7")).
Defined.

(** X7.  [getFixStatus] gives "Unknown" exactly outside the codes 0 to 8,
    "RTK Fix" exactly for the code 4 that the RTK gate asks for, and no
    two codes share a label. *)
Theorem getFixStatus_labels :
  forall (f g : string),
    (getFixStatus f = "Unknown" <-> ~ In f fix_codes)
    /\ (getFixStatus f = "RTK Fix" <-> f = "4")
    /\ (In f fix_codes -> getFixStatus f = getFixStatus g -> f = g).
Proof.
  intros f g.
  assert (Hcases : forall x,
            In x fix_codes \/ (~ In x fix_codes /\ getFixStatus x = "Unknown")).
  { intros x. unfold getFixStatus, fix_codes.
    repeat match goal with
           | |- context [String.eqb x ?c] =>
               let E := fresh "E" in
               destruct (String.eqb x c) eqn:E;
               [apply String.eqb_eq in E; subst x; left; simpl; tauto
               |apply String.eqb_neq in E]
           end.
    right. split; [|reflexivity]. simpl. intuition congruence. }
  assert (Hknown : forall x, In x fix_codes -> getFixStatus x <> "Unknown").
  { intros x Hx. unfold fix_codes in Hx. simpl in Hx.
    repeat (destruct Hx as [<-|Hx]; [discriminate|]). destruct Hx. }
  split; [|split].
  - split.
    + intros Hu Hin. exact (Hknown f Hin Hu).
    + intros Hout. destruct (Hcases f) as [Hin|[_ Hu]]; [now contradiction Hout | exact Hu].
  - split.
    + intros Hrtk. destruct (Hcases f) as [Hin|[_ Hu]].
      * unfold fix_codes in Hin. simpl in Hin.
        repeat (destruct Hin as [<-|Hin]; [try reflexivity; discriminate Hrtk|]).
        destruct Hin.
      * rewrite Hu in Hrtk. discriminate.
    + now intros ->.
  - intros Hf Heq. destruct (Hcases g) as [Hg|[_ Hu]].
    + unfold fix_codes in Hf, Hg. simpl in Hf, Hg.
      repeat (destruct Hf as [<-|Hf];
              [repeat (destruct Hg as [<-|Hg]; [try reflexivity; discriminate Heq|]);
               destruct Hg|]).
      destruct Hf.
    + rewrite Hu in Heq. now contradiction (Hknown f Hf).
Qed.

Lemma getFixStatus_labels_witness :
  getFixStatus "9" = "Unknown" /\ getFixStatus "" = "Unknown".
Proof.
  split.
  - apply (getFixStatus_labels "9" ""). unfold fix_codes. simpl.
    intros H. repeat (destruct H as [H|H]; [discriminate H|]). exact H.
  - apply (getFixStatus_labels "" ""). unfold fix_codes. simpl.
    intros H. repeat (destruct H as [H|H]; [discriminate H|]). exact H.
Defined.

(** ** What a subscriber receives *)

Lemma run_app (cfg : Config) (evs1 evs2 : list (Sockets * Event)) :
  forall st,
    run cfg st (evs1 ++ evs2)
    = match run cfg st evs1 with
      | Done st1 out1 =>
          match run cfg st1 evs2 with
          | Done st2 out2 => Done st2 (out1 ++ out2)
          | Uncaught e => Uncaught e
          end
      | Uncaught e => Uncaught e
      end.
Proof.
  induction evs1 as [|[sk ev] evs1 IH]; intros st; simpl.
  - now destruct (run cfg st evs2).
  - destruct (step cfg sk st ev) as [st1 out1|]; [|reflexivity].
    rewrite IH. destruct (run cfg st1 evs1) as [st2 out2|]; [|reflexivity].
    destruct (run cfg st2 evs2) as [st3 out3|]; [|reflexivity].
    now rewrite app_assoc.
Qed.

Lemma writes_to_app (j : nat) (a b : list Effect) :
  writes_to j (a ++ b) = writes_to j a ++ writes_to j b.
Proof.
  induction a as [|e a IH]; [reflexivity|].
  destruct e; simpl; try exact IH.
  destruct (Nat.eqb socket j); simpl; now rewrite IH.
Qed.

Lemma writes_to_forEach (sk : Sockets) (j : nat) (cl : list nat) (text : string) :
  writes_to j (forEach_write sk cl text)
  = if writable (sk j) then repeat text (count_occ Nat.eq_dec cl j) else [].
Proof.
  unfold forEach_write. induction cl as [|y cl IH]; simpl.
  - now destruct (writable (sk j)).
  - rewrite writes_to_app, IH. destruct (Nat.eq_dec y j) as [->|Hne].
    + destruct (writable (sk j)); simpl; [|reflexivity].
      now rewrite Nat.eqb_refl.
    + destruct (writable (sk y)); simpl; [|reflexivity].
      apply Nat.eqb_neq in Hne. now rewrite Hne.
Qed.

Lemma count_occ_remove_other (j k : nat) (cl : list nat) :
  k <> j -> count_occ Nat.eq_dec (remove_client k cl) j = count_occ Nat.eq_dec cl j.
Proof.
  intros Hkj. induction cl as [|y cl IH]; [reflexivity|].
  rewrite remove_client_cons. destruct (Nat.eqb y k) eqn:Hy.
  - apply Nat.eqb_eq in Hy. subst y. simpl.
    destruct (Nat.eq_dec k j); [contradiction | reflexivity].
  - simpl. destruct (Nat.eq_dec y j); now rewrite IH.
Qed.

Lemma writes_to_forEach_end (sk : Sockets) (j : nat) (cl : list nat) (text : string) :
  forall ended, writes_to j (forEach_end sk cl text ended) = [].
Proof.
  induction cl as [|y cl IH]; intros ended; [reflexivity|].
  simpl. destruct (writable (sk y) && negb (existsb (Nat.eqb y) ended)); simpl; apply IH.
Qed.

Lemma sent_to_app (j : nat) (a b : list Effect) :
  sent_to j (a ++ b) = sent_to j a ++ sent_to j b.
Proof.
  induction a as [|e a IH]; [reflexivity|].
  destruct e; simpl; try exact IH;
    destruct (Nat.eqb socket j); simpl; now rewrite IH.
Qed.

Lemma sent_to_forEach_write (sk : Sockets) (j : nat) (cl : list nat) (text : string) :
  sent_to j (forEach_write sk cl text)
  = if writable (sk j) then repeat text (count_occ Nat.eq_dec cl j) else [].
Proof.
  unfold forEach_write. induction cl as [|y cl IH]; simpl.
  - now destruct (writable (sk j)).
  - rewrite sent_to_app, IH. destruct (Nat.eq_dec y j) as [->|Hne].
    + destruct (writable (sk j)); simpl; [|reflexivity].
      now rewrite Nat.eqb_refl.
    + destruct (writable (sk y)); simpl; [|reflexivity].
      apply Nat.eqb_neq in Hne. now rewrite Hne.
Qed.

(** The shutdown ends a socket once, however often it is registered. *)
Lemma sent_to_forEach_end (sk : Sockets) (j : nat) (cl : list nat) (text : string) :
  forall ended,
    sent_to j (forEach_end sk cl text ended)
    = if writable (sk j) && negb (existsb (Nat.eqb j) ended) && existsb (Nat.eqb j) cl
      then [text] else [].
Proof.
  induction cl as [|y cl IH]; intros ended.
  - simpl. now rewrite andb_false_r.
  - simpl. destruct (Nat.eq_dec y j) as [->|Hne].
    + rewrite Nat.eqb_refl. simpl. rewrite andb_true_r.
      destruct (writable (sk j) && negb (existsb (Nat.eqb j) ended)) eqn:Hc.
      * simpl. rewrite Nat.eqb_refl, IH. simpl. rewrite Nat.eqb_refl. simpl.
        now rewrite andb_false_r.
      * rewrite IH, Hc. reflexivity.
    + assert (Hjy : Nat.eqb j y = false) by (apply Nat.eqb_neq; congruence).
      rewrite Hjy. simpl.
      destruct (writable (sk y) && negb (existsb (Nat.eqb y) ended)).
      * simpl. apply Nat.eqb_neq in Hne. rewrite Hne, IH. simpl. now rewrite Hjy.
      * apply IH.
Qed.

Lemma registered_once (j : nat) (cl : list nat) :
  count_occ Nat.eq_dec cl j = 1 -> existsb (Nat.eqb j) cl = true.
Proof.
  intros Hone. apply existsb_exists. exists j. split; [|apply Nat.eqb_refl].
  apply (count_occ_In Nat.eq_dec). lia.
Qed.

(** What a step hands to [j], when [j] is registered once and is neither
    connecting again nor leaving. *)
Lemma step_sends_to (cfg : Config) (sk : Sockets) (st st' : State) (ev : Event)
    (out : list Effect) (j : nat) :
  step cfg sk st ev = Done st' out ->
  stays_connected j [(sk, ev)] = true ->
  never_reconnects j [(sk, ev)] = true ->
  count_occ Nat.eq_dec (clients st) j = 1 ->
  count_occ Nat.eq_dec (clients st') j = 1
  /\ sent_to j out = while_writable (sent_by cfg) j [(sk, ev)]
  /\ writes_to j out = while_writable (written_by cfg) j [(sk, ev)].
Proof.
  intros Hstep Hstay Hnew Hone.
  rewrite (step_clients cfg sk st st' ev out Hstep).
  destruct ev; simpl in Hstep, Hstay, Hnew; unfold done in Hstep;
    unfold sent_by; simpl.
  - injection Hstep as _ <-. split; [|now split].
    rewrite andb_true_r in Hnew. apply negb_true_iff, Nat.eqb_neq in Hnew.
    rewrite count_occ_app. simpl. destruct (Nat.eq_dec socket j); [contradiction | lia].
  - injection Hstep as _ <-. split; [|now split].
    rewrite andb_true_r in Hstay. apply negb_true_iff, Nat.eqb_neq in Hstay.
    rewrite count_occ_remove_other; assumption.
  - injection Hstep as _ <-. split; [|now split].
    rewrite andb_true_r in Hstay. apply negb_true_iff, Nat.eqb_neq in Hstay.
    rewrite count_occ_remove_other; assumption.
  - discriminate.
  - injection Hstep as _ <-. split; [exact Hone|].
    rewrite on_serial_data_out. destruct (forwards cfg data); [|now split].
    rewrite sent_to_forEach_write, writes_to_forEach, Hone. simpl.
    now destruct (writable (sk j)).
  - split; [exact Hone|].
    destruct (ntrip st); injection Hstep as _ <-; try (now split).
    unfold on_ntrip_response. now destruct (negb _).
  - split; [exact Hone|]. destruct (ntrip st); injection Hstep as _ <-; now split.
  - injection Hstep as _ <-. split; [exact Hone|].
    unfold on_gga_interval. destruct (latestGGA st) as [g|]; [|now split].
    now destruct (raw g) as [[|c r]|].
  - injection Hstep as _ <-. split; [exact Hone|]. cbn [snd on_serial_close sent_to writes_to].
    rewrite sent_to_forEach_write, writes_to_forEach, Hone. simpl.
    now destruct (writable (sk j)).
  - injection Hstep as _ <-. split; [exact Hone|]. cbn [snd on_serial_open sent_to writes_to].
    rewrite sent_to_forEach_write, writes_to_forEach, Hone. simpl.
    now destruct (writable (sk j)).
  - injection Hstep as _ <-. split; [exact Hone|]. cbn [snd on_serial_end sent_to writes_to].
    rewrite sent_to_forEach_write, writes_to_forEach, Hone. simpl.
    now destruct (writable (sk j)).
  - injection Hstep as _ <-. split; [exact Hone|]. cbn [snd on_sigint sent_to writes_to].
    rewrite sent_to_app, writes_to_app, sent_to_forEach_end, writes_to_forEach_end.
    rewrite (registered_once j (clients st) Hone). simpl.
    rewrite !andb_true_r, app_nil_r. now destruct (writable (sk j)).
Qed.

Lemma while_writable_cons (text_of : Event -> option string) (j : nat)
    (sk : Sockets) (ev : Event) (evs : list (Sockets * Event)) :
  while_writable text_of j ((sk, ev) :: evs)
  = while_writable text_of j [(sk, ev)] ++ while_writable text_of j evs.
Proof.
  simpl. destruct (text_of ev); [|reflexivity]. now destruct (writable (sk j)).
Qed.

Lemma run_sends_to (cfg : Config) (j : nat) (evs : list (Sockets * Event)) :
  forall st st' out,
    run cfg st evs = Done st' out ->
    count_occ Nat.eq_dec (clients st) j = 1 ->
    stays_connected j evs = true ->
    never_reconnects j evs = true ->
    count_occ Nat.eq_dec (clients st') j = 1
    /\ sent_to j out = while_writable (sent_by cfg) j evs
    /\ writes_to j out = while_writable (written_by cfg) j evs.
Proof.
  induction evs as [|[sk ev] evs IH]; intros st st' out Hrun Hone Hstay Hnew; simpl in Hrun.
  - injection Hrun as <- <-. now split.
  - destruct (step cfg sk st ev) as [st1 out1|] eqn:Hstep; [|discriminate].
    destruct (run cfg st1 evs) as [st2 out2|] eqn:Hrest; [|discriminate].
    injection Hrun as <- <-.
    assert (Hstay1 : stays_connected j [(sk, ev)] = true /\ stays_connected j evs = true).
    { destruct ev; simpl in Hstay |- *; try (split; [reflexivity | assumption]);
        apply andb_true_iff in Hstay; destruct Hstay as [-> ->]; now split. }
    assert (Hnew1 : never_reconnects j [(sk, ev)] = true /\ never_reconnects j evs = true).
    { destruct ev; simpl in Hnew |- *; try (split; [reflexivity | assumption]);
        apply andb_true_iff in Hnew; destruct Hnew as [-> ->]; now split. }
    destruct (step_sends_to cfg sk st st1 ev out1 j Hstep (proj1 Hstay1) (proj1 Hnew1) Hone)
      as [Hcount [Hsent1 Hout1]].
    destruct (IH st1 st2 out2 Hrest Hcount (proj2 Hstay1) (proj2 Hnew1))
      as [Hfin [Hsent2 Hout2]].
    split; [exact Hfin|].
    rewrite sent_to_app, writes_to_app, Hsent1, Hout1, Hsent2, Hout2.
    now rewrite <- !while_writable_cons.
Qed.

(** X8.  A subscriber that is registered once, and neither leaves nor
    connects again, is handed exactly this, event by event, for the
    events that are handled while it is writable: each serial line that
    passes the filter, followed by a line feed; the notice of each
    closing, opening or end of the serial stream; the notice of each
    SIGINT.  Each comes once, in the order of the events, and nothing
    else comes.  All but the notice of a SIGINT are written; that one
    comes with the end of the socket. *)
Theorem subscriber_stream_is_the_filtered_serial_stream :
  forall (cfg : Config) (st : State) (evs : list (Sockets * Event)) (j : nat),
    count_occ Nat.eq_dec (clients st) j = 1 ->
    stays_connected j evs = true ->
    never_reconnects j evs = true ->
    never_drops evs = true ->
    exists st' out,
      run cfg st evs = Done st' out
      /\ sent_to j out = while_writable (sent_by cfg) j evs
      /\ writes_to j out = while_writable (written_by cfg) j evs.
Proof.
  intros cfg st evs j Hone Hstay Hnew Hdrops.
  destruct (run_total cfg evs st Hdrops) as [st' [out Hrun]].
  exists st', out. split; [exact Hrun|].
  exact (proj2 (run_sends_to cfg j evs st st' out Hrun Hone Hstay Hnew)).
Qed.

Lemma subscriber_stream_is_the_filtered_serial_stream_witness :
  exists st' out,
    run (sample_cfg true) (sample_state [1; 2])
        [(sample_sockets, SerialData gga_fix1);
         (sample_sockets, SerialData rmc_mode_R);
         (sample_sockets, SocketClose 1);
         (sample_sockets, SerialData gsv_line);
         (sample_sockets, SerialData gga_fix4);
         (sample_sockets, SerialEnd);
         (sample_sockets, SerialClose);
         (sample_sockets, Sigint)]
    = Done st' out
    /\ sent_to 2 out = [(rmc_mode_R ++ LF)%string; (gga_fix4 ++ LF)%string;
                        ("Serial stream ended" ++ LF)%string;
                        ("Serial port closed" ++ LF)%string;
                        ("Server shutting down" ++ LF)%string]
    /\ writes_to 2 out = [(rmc_mode_R ++ LF)%string; (gga_fix4 ++ LF)%string;
                          ("Serial stream ended" ++ LF)%string;
                          ("Serial port closed" ++ LF)%string].
Proof.
  destruct (subscriber_stream_is_the_filtered_serial_stream (sample_cfg true)
              (sample_state [1; 2])
              [(sample_sockets, SerialData gga_fix1);
               (sample_sockets, SerialData rmc_mode_R);
               (sample_sockets, SocketClose 1);
               (sample_sockets, SerialData gsv_line);
               (sample_sockets, SerialData gga_fix4);
               (sample_sockets, SerialEnd);
               (sample_sockets, SerialClose);
               (sample_sockets, Sigint)] 2
              eq_refl eq_refl eq_refl eq_refl) as [st' [out [Hrun [Hsent Hout]]]].
  exists st', out. split; [exact Hrun|]. split.
  - rewrite Hsent. reflexivity.
  - rewrite Hout. reflexivity.
Defined.

(** What an event writes, it writes to the registered sockets that are
    writable, and it is the text of the event. *)
Lemma step_write_origin (cfg : Config) (sk : Sockets) (st st' : State)
    (ev : Event) (out : list Effect) (s : nat) (t : string) :
  step cfg sk st ev = Done st' out ->
  In (socket_write s t) out ->
  In s (clients st) /\ writable (sk s) = true /\ written_by cfg ev = Some t.
Proof.
  intros Hstep Hin.
  split; [exact (step_writes_registered cfg sk st st' ev out s t Hstep Hin)|].
  destruct ev; simpl in Hstep; unfold done in Hstep.
  - injection Hstep as _ <-. simpl in Hin. destruct Hin as [Hin|[]]; discriminate.
  - injection Hstep as _ <-. simpl in Hin. destruct Hin as [Hin|[Hin|[]]]; discriminate.
  - injection Hstep as _ <-. simpl in Hin. destruct Hin as [Hin|[]]; discriminate.
  - discriminate.
  - injection Hstep as _ <-. rewrite on_serial_data_out in Hin. simpl.
    destruct (forwards cfg data); [|destruct Hin].
    apply forEach_write_In in Hin. destruct Hin as [_ [Hw ->]]. now split.
  - destruct (ntrip st); injection Hstep as _ <-; try (now destruct Hin).
    unfold on_ntrip_response in Hin. destruct (negb _); simpl in Hin.
    + destruct Hin as [Hin|[Hin|[]]]; discriminate.
    + destruct Hin as [Hin|[]]; discriminate.
  - destruct (ntrip st); injection Hstep as _ <-; simpl in Hin;
      try (now destruct Hin).
  - injection Hstep as _ <-. unfold on_gga_interval in Hin.
    destruct (latestGGA st) as [g|]; [|destruct Hin].
    destruct (raw g) as [[|c r]|]; try (now destruct Hin).
    simpl in Hin. destruct Hin as [Hin|[Hin|[]]]; discriminate.
  - injection Hstep as _ <-. destruct Hin as [Hin|Hin]; [discriminate|].
    apply forEach_write_In in Hin. destruct Hin as [_ [Hw ->]]. now split.
  - injection Hstep as _ <-. destruct Hin as [Hin|Hin]; [discriminate|].
    apply forEach_write_In in Hin. destruct Hin as [_ [Hw ->]]. now split.
  - injection Hstep as _ <-. destruct Hin as [Hin|Hin]; [discriminate|].
    apply forEach_write_In in Hin. destruct Hin as [_ [Hw ->]]. now split.
  - injection Hstep as _ <-. apply on_sigint_effects in Hin.
    destruct Hin as [Hin|[[s' [Hin _]]|[Hin|Hin]]]; discriminate.
Qed.

(** X9.  Whatever the run, a text written to a socket is the text of an
    event of the run: a serial line that passed the filter, followed by a
    line feed, or the notice of the closing, the opening or the end of
    the serial stream; a text a socket is ended with is the notice of a
    SIGINT of the run.  In both cases the socket was registered and
    writable when that event was handled: nothing else is ever handed to
    a subscriber, and nothing to a socket outside the registry. *)
Theorem every_text_sent_is_a_line_or_a_notice :
  forall (cfg : Config) (evs : list (Sockets * Event)) (st st' : State)
         (out : list Effect) (s : nat) (t : string),
    run cfg st evs = Done st' out ->
    (In (socket_write s t) out ->
     exists pre sk ev post st1 out1,
       evs = pre ++ (sk, ev) :: post
       /\ run cfg st pre = Done st1 out1
       /\ In s (clients st1)
       /\ writable (sk s) = true
       /\ written_by cfg ev = Some t)
    /\ (In (socket_end s t) out ->
        exists pre sk post st1 out1,
          evs = pre ++ (sk, Sigint) :: post
          /\ run cfg st pre = Done st1 out1
          /\ In s (clients st1)
          /\ writable (sk s) = true
          /\ t = ("Server shutting down" ++ LF)%string).
Proof.
  intros cfg evs. induction evs as [|[sk ev] evs IH]; intros st st' out s t Hrun;
    simpl in Hrun.
  - injection Hrun as _ <-. split; intros [].
  - destruct (step cfg sk st ev) as [st1 out1|] eqn:Hstep; [|discriminate].
    destruct (run cfg st1 evs) as [st2 out2|] eqn:Hrest; [|discriminate].
    injection Hrun as _ <-.
    destruct (IH st1 st2 out2 s t Hrest) as [IHw IHe].
    split; intros Hin; apply in_app_or in Hin; destruct Hin as [Hin|Hin].
    + destruct (step_write_origin cfg sk st st1 ev out1 s t Hstep Hin) as [Hreg [Hw Ht]].
      exists [], sk, ev, evs, st, []. repeat split; assumption.
    + destruct (IHw Hin) as [pre [sk' [ev' [post [st3 [out3 [Hevs [Hpre [Hreg [Hw Ht]]]]]]]]]].
      exists ((sk, ev) :: pre), sk', ev', post, st3, (out1 ++ out3).
      repeat split; try assumption.
      * simpl. now rewrite Hevs.
      * simpl. now rewrite Hstep, Hpre.
    + destruct (step_ends_registered cfg sk st st1 ev out1 s t Hstep Hin)
        as [-> [Hreg [Hw Ht]]].
      exists [], sk, evs, st, []. repeat split; assumption.
    + destruct (IHe Hin) as [pre [sk' [post [st3 [out3 [Hevs [Hpre [Hreg [Hw Ht]]]]]]]]].
      exists ((sk, ev) :: pre), sk', post, st3, (out1 ++ out3).
      repeat split; try assumption.
      * simpl. now rewrite Hevs.
      * simpl. now rewrite Hstep, Hpre.
Qed.

Lemma every_text_sent_is_a_line_or_a_notice_witness :
  (exists pre sk ev post st1 out1,
     [(sample_sockets, TcpConnection 7); (sample_sockets, SerialData gga_fix4);
      (sample_sockets, Sigint)]
     = pre ++ (sk, ev) :: post
     /\ run (sample_cfg true) initial_state pre = Done st1 out1
     /\ In 7 (clients st1)
     /\ writable (sk 7) = true
     /\ written_by (sample_cfg true) ev = Some (gga_fix4 ++ LF)%string)
  /\ (exists pre sk post st1 out1,
        [(sample_sockets, TcpConnection 7); (sample_sockets, SerialData gga_fix4);
         (sample_sockets, Sigint)]
        = pre ++ (sk, Sigint) :: post
        /\ run (sample_cfg true) initial_state pre = Done st1 out1
        /\ In 7 (clients st1)
        /\ writable (sk 7) = true).
Proof.
  destruct (every_text_sent_is_a_line_or_a_notice (sample_cfg true)
              [(sample_sockets, TcpConnection 7); (sample_sockets, SerialData gga_fix4);
               (sample_sockets, Sigint)]
              initial_state
              {| clients := [7]; latestGGA := Some (fix_of gga_fix4);
                 ntrip := ntrip_requested |}
              [console_log "TCP NMEA client connected: 192.168.1.20:4007";
               socket_write 7 (gga_fix4 ++ LF)%string;
               console_log (LF ++ "Ctrl+C received - gracefully shutting down...")%string;
               socket_end 7 ("Server shutting down" ++ LF)%string;
               server_close; set_timeout 4000]
              7 (gga_fix4 ++ LF)%string) as [Hw _].
  { vm_compute. reflexivity. }
  destruct (every_text_sent_is_a_line_or_a_notice (sample_cfg true)
              [(sample_sockets, TcpConnection 7); (sample_sockets, SerialData gga_fix4);
               (sample_sockets, Sigint)]
              initial_state
              {| clients := [7]; latestGGA := Some (fix_of gga_fix4);
                 ntrip := ntrip_requested |}
              [console_log "TCP NMEA client connected: 192.168.1.20:4007";
               socket_write 7 (gga_fix4 ++ LF)%string;
               console_log (LF ++ "Ctrl+C received - gracefully shutting down...")%string;
               socket_end 7 ("Server shutting down" ++ LF)%string;
               server_close; set_timeout 4000]
              7 ("Server shutting down" ++ LF)%string) as [_ He].
  { vm_compute. reflexivity. }
  split.
  - apply Hw. right. left. reflexivity.
  - destruct He as [pre [sk [post [st1 [out1 [H1 [H2 [H3 [H4 _]]]]]]]]].
    { right. right. right. left. reflexivity. }
    exists pre, sk, post, st1, out1. repeat split; assumption.
Defined.

(** ** What is sent to the caster *)

Lemma step_latest (cfg : Config) (sk : Sockets) (st st' : State) (ev : Event)
    (out : list Effect) :
  step cfg sk st ev = Done st' out ->
  latestGGA st' = match ev with
                  | SerialData data =>
                      if tracked cfg data then Some (fix_of data) else latestGGA st
                  | _ => latestGGA st
                  end.
Proof.
  intros Hstep. destruct ev; simpl in Hstep; unfold done in Hstep;
    try (injection Hstep as <- _; reflexivity); try discriminate.
  - injection Hstep as <- _. apply on_serial_data_latest.
  - destruct (ntrip st); injection Hstep as <- _; try reflexivity.
    unfold on_ntrip_response. now destruct (negb _).
  - destruct (ntrip st); injection Hstep as <- _; reflexivity.
Qed.

Lemma run_latest (cfg : Config) (evs : list (Sockets * Event)) :
  forall st st' out (start : option string),
    run cfg st evs = Done st' out ->
    latestGGA st = option_map fix_of start ->
    latestGGA st' = option_map fix_of (last_tracked cfg evs start).
Proof.
  induction evs as [|[sk ev] evs IH]; intros st st' out start Hrun Hstart; simpl in Hrun.
  - injection Hrun as <- _. exact Hstart.
  - destruct (step cfg sk st ev) as [st1 out1|] eqn:Hstep; [|discriminate].
    destruct (run cfg st1 evs) as [st2 out2|] eqn:Hrest; [|discriminate].
    injection Hrun as <- _.
    pose proof (step_latest cfg sk st st1 ev out1 Hstep) as Hl.
    destruct ev; simpl; try (apply (IH st1 st2 out2 start Hrest); now rewrite Hl).
    apply (IH st1 st2 out2 _ Hrest). rewrite Hl.
    destruct (tracked cfg data); [reflexivity | exact Hstart].
Qed.

Lemma last_tracked_is_tracked (cfg : Config) (evs : list (Sockets * Event)) :
  forall (start : option string) (d : string),
    last_tracked cfg evs start = Some d ->
    start = Some d \/ (tracked cfg d = true /\ exists sk, In (sk, SerialData d) evs).
Proof.
  induction evs as [|[sk ev] evs IH]; intros start d Hd; simpl in Hd; [now left|].
  destruct ev; try (destruct (IH start d Hd) as [H|[Ht [sk' Hin]]];
                    [now left | right; split; [exact Ht | exists sk'; now right]]).
  destruct (tracked cfg data) eqn:Htr.
  - destruct (IH (Some data) d Hd) as [H|[Ht [sk' Hin]]].
    + injection H as <-. right. split; [exact Htr|]. exists sk. now left.
    + right. split; [exact Ht | exists sk'; now right].
  - destruct (IH start d Hd) as [H|[Ht [sk' Hin]]];
      [now left | right; split; [exact Ht | exists sk'; now right]].
Qed.

Lemma tracked_nonempty (cfg : Config) (d : string) : tracked cfg d = true -> d <> "".
Proof.
  intros Htr ->. unfold tracked in Htr. simpl in Htr.
  now rewrite andb_false_r in Htr.
Qed.

(** X10.  From the start of the program, the stored fix is at every
    moment the fix of the last serial line the tracker accepted (allowed
    type, $GPGGA or $GNGGA, 15 fields or more).  So the 60 s timer sends
    the caster that line, as it came, followed by CR LF, and logs it; as
    long as no such line has come the timer does nothing. *)
Theorem caster_is_sent_the_last_tracked_line :
  forall (cfg : Config) (evs : list (Sockets * Event)),
    never_drops evs = true ->
    exists st' out,
      run cfg initial_state evs = Done st' out
      /\ latestGGA st' = option_map fix_of (last_tracked cfg evs None)
      /\ (forall sk : Sockets,
            step cfg sk st' GgaInterval
            = Done st' (match last_tracked cfg evs None with
                        | Some d => [req_write (d ++ CRLF);
                                     console_error ("NTRIP GGA sent:" ++ " " ++ d)]
                        | None => []
                        end))
      /\ (forall d, last_tracked cfg evs None = Some d ->
            tracked cfg d = true /\ exists sk, In (sk, SerialData d) evs).
Proof.
  intros cfg evs Hdrops.
  destruct (run_total cfg evs initial_state Hdrops) as [st' [out Hrun]].
  exists st', out. split; [exact Hrun|].
  pose proof (run_latest cfg evs initial_state st' out None Hrun eq_refl) as Hlatest.
  assert (Hsrc : forall d, last_tracked cfg evs None = Some d ->
                   tracked cfg d = true /\ exists sk, In (sk, SerialData d) evs).
  { intros d Hd. destruct (last_tracked_is_tracked cfg evs None d Hd) as [H|H];
      [discriminate | exact H]. }
  split; [exact Hlatest|]. split; [|exact Hsrc].
  intros sk. simpl. unfold on_gga_interval. rewrite Hlatest.
  destruct (last_tracked cfg evs None) as [d|] eqn:Hd; [|reflexivity].
  simpl. pose proof (tracked_nonempty cfg d (proj1 (Hsrc d eq_refl))) as Hne.
  destruct d as [|c r]; [now contradiction Hne | reflexivity].
Qed.

Lemma caster_is_sent_the_last_tracked_line_witness :
  exists st' out,
    run (sample_cfg true) initial_state
        [(sample_sockets, SerialData gga_fix4);
         (sample_sockets, SerialData rmc_mode_R);
         (sample_sockets, SerialData gga_fix1);
         (sample_sockets, SerialData gga_truncated)]
    = Done st' out
    /\ step (sample_cfg true) sample_sockets st' GgaInterval
       = Done st' [req_write (gga_fix1 ++ CRLF);
                   console_error ("NTRIP GGA sent:" ++ " " ++ gga_fix1)].
Proof.
  destruct (caster_is_sent_the_last_tracked_line (sample_cfg true)
              [(sample_sockets, SerialData gga_fix4);
               (sample_sockets, SerialData rmc_mode_R);
               (sample_sockets, SerialData gga_fix1);
               (sample_sockets, SerialData gga_truncated)] eq_refl)
    as [st' [out [Hrun [_ [Htick _]]]]].
  exists st', out. split; [exact Hrun|].
  rewrite (Htick sample_sockets). reflexivity.
Defined.

(** ** The registry over a run *)

Lemma run_live_sockets (cfg : Config) (evs : list (Sockets * Event)) :
  forall st st' out,
    run cfg st evs = Done st' out ->
    NoDup (clients st) ->
    connections_fresh evs (clients st) = true ->
    clients st' = live_sockets evs (clients st) /\ NoDup (clients st').
Proof.
  induction evs as [|[sk ev] evs IH]; intros st st' out Hrun Hnd Hfresh; simpl in Hrun.
  - injection Hrun as <- _. now split.
  - destruct (step cfg sk st ev) as [st1 out1|] eqn:Hstep; [|discriminate].
    destruct (run cfg st1 evs) as [st2 out2|] eqn:Hrest; [|discriminate].
    injection Hrun as <- _.
    pose proof (step_clients cfg sk st st1 ev out1 Hstep) as Hcl.
    assert (Hnd1 : NoDup (clients st1)).
    { apply (step_keeps_NoDup cfg sk st st1 ev out1 Hstep); [|exact Hnd].
      intros s -> Hin. simpl in Hfresh. apply andb_true_iff in Hfresh.
      destruct Hfresh as [Hnew _]. apply negb_true_iff in Hnew.
      assert (Hex : existsb (Nat.eqb s) (clients st) = true)
        by (apply existsb_exists; exists s; split; [exact Hin | apply Nat.eqb_refl]).
      congruence. }
    assert (Hfresh1 : connections_fresh evs (clients st1) = true
                      /\ live_sockets ((sk, ev) :: evs) (clients st)
                         = live_sockets evs (clients st1)).
    { rewrite Hcl. destruct ev; simpl in Hfresh |- *; try (now split).
      - apply andb_true_iff in Hfresh. now split.
      - now rewrite (remove_client_filter socket (clients st) Hnd).
      - now rewrite (remove_client_filter socket (clients st) Hnd). }
    destruct Hfresh1 as [Hfresh1 Hlive]. rewrite Hlive.
    apply (IH st1 st2 out2 Hrest Hnd1 Hfresh1).
Qed.

(** X11.  From the start of the program, as long as each connection
    brings a socket object of its own, the registry holds no socket twice
    and is at every moment the list of the sockets that have connected
    and have had neither error nor close since, in order of connection. *)
Theorem registry_is_the_live_connections :
  forall (cfg : Config) (evs : list (Sockets * Event)),
    never_drops evs = true ->
    connections_fresh evs [] = true ->
    exists st' out,
      run cfg initial_state evs = Done st' out
      /\ clients st' = live_sockets evs []
      /\ NoDup (clients st').
Proof.
  intros cfg evs Hdrops Hfresh.
  destruct (run_total cfg evs initial_state Hdrops) as [st' [out Hrun]].
  exists st', out. split; [exact Hrun|].
  apply (run_live_sockets cfg evs initial_state st' out Hrun); [constructor | exact Hfresh].
Qed.

Lemma registry_is_the_live_connections_witness :
  exists st' out,
    run (sample_cfg true) initial_state
        [(sample_sockets, TcpConnection 1); (sample_sockets, TcpConnection 2);
         (sample_sockets, SocketError 1 "EPIPE"); (sample_sockets, TcpConnection 3);
         (sample_sockets, SocketClose 1); (sample_sockets, TcpConnection 1)]
    = Done st' out
    /\ clients st' = [2; 3; 1].
Proof.
  destruct (registry_is_the_live_connections (sample_cfg true)
              [(sample_sockets, TcpConnection 1); (sample_sockets, TcpConnection 2);
               (sample_sockets, SocketError 1 "EPIPE"); (sample_sockets, TcpConnection 3);
               (sample_sockets, SocketClose 1); (sample_sockets, TcpConnection 1)]
              eq_refl eq_refl) as [st' [out [Hrun [Hcl _]]]].
  exists st', out. split; [exact Hrun|]. rewrite Hcl. reflexivity.
Defined.

(** ** The filter only removes *)

Lemma includes_incl (l l' : list string) (x : string) :
  incl l l' -> JS.includes l x = true -> JS.includes l' x = true.
Proof. intros Hincl Hx. apply includes_In. apply Hincl. now apply includes_In. Qed.

(** X12.  The filter only ever removes lines.  What a line makes the
    handler write with the RTK gate on is what it writes with the gate
    off, or nothing; what it writes with an allow list is what it writes
    with a larger one, or nothing.  Neither setting changes the
    registry. *)
Theorem filter_only_removes :
  forall (cfg : Config) (sk : Sockets) (st : State) (data : string) (l' : list string),
    (snd (on_serial_data (with_gate cfg true) sk st data) = []
     \/ snd (on_serial_data (with_gate cfg true) sk st data)
        = snd (on_serial_data (with_gate cfg false) sk st data))
    /\ (incl (allow_list cfg) l' ->
          snd (on_serial_data cfg sk st data) = []
          \/ snd (on_serial_data cfg sk st data)
             = snd (on_serial_data (with_allow_list cfg l') sk st data))
    /\ clients (fst (on_serial_data cfg sk st data)) = clients st.
Proof.
  intros cfg sk st data l'. split; [|split].
  - rewrite !on_serial_data_out. unfold forwards. simpl.
    destruct (JS.includes (allow_list cfg) (NMEA_SUFFIX data)); simpl; [|now left].
    destruct (gga_not_fixed data || rmc_not_fixed data); simpl; [now left | now right].
  - intros Hincl. rewrite !on_serial_data_out. unfold forwards. simpl.
    destruct (JS.includes (allow_list cfg) (NMEA_SUFFIX data)) eqn:Hin; simpl; [|now left].
    rewrite (includes_incl _ l' _ Hincl Hin). simpl. now right.
  - apply on_serial_data_clients.
Qed.

Lemma filter_only_removes_witness :
  snd (on_serial_data (sample_cfg true) sample_sockets (sample_state [1]) gsv_line) = []
  \/ snd (on_serial_data (sample_cfg true) sample_sockets (sample_state [1]) gsv_line)
     = snd (on_serial_data (with_allow_list (sample_cfg true) ["RMC"; "VTG"; "GGA"; "GSV"])
              sample_sockets (sample_state [1]) gsv_line).
Proof.
  apply (filter_only_removes (sample_cfg true) sample_sockets (sample_state [1]) gsv_line
           ["RMC"; "VTG"; "GGA"; "GSV"]).
  intros x Hx. simpl in Hx |- *. tauto.
Defined.

(** ** The first relay *)




(** ** The sentence counter *)

Module NmeaCounterFacts.

Import NmeaCounter.

Lemma split_lines_nonempty (s : string) : split_lines s <> [].
Proof.
  destruct s as [|c s]; simpl; [discriminate|].
  destruct (Ascii.eqb c "010"); [discriminate|].
  destruct s as [|c' s]; [discriminate|].
  destruct (Ascii.eqb c "013" && Ascii.eqb c' "010"); [discriminate|].
  unfold cons_head. destruct (split_lines (String c' s)); discriminate.
Qed.

Lemma removelast_cons {A : Type} (x : A) (l : list A) :
  l <> [] -> removelast (x :: l) = x :: removelast l.
Proof. destruct l; [contradiction | reflexivity]. Qed.

Lemma last_cons {A : Type} (x d : A) (l : list A) :
  l <> [] -> last (x :: l) d = last l d.
Proof. destruct l; [contradiction | reflexivity]. Qed.

(** A string that is one piece and does not start with a line feed is
    that piece, which starts as the string does. *)
Lemma single_piece_head (c : ascii) (s l : string) :
  Ascii.eqb c "010" = false -> split_lines (String c s) = [l] ->
  exists l', l = String c l'.
Proof.
  intros Hc. simpl. rewrite Hc. destruct s as [|c' s].
  - intros H. injection H as <-. now exists EmptyString.
  - destruct (Ascii.eqb c "013" && Ascii.eqb c' "010").
    + intros H. injection H as _ H. now apply split_lines_nonempty in H.
    + unfold cons_head. destruct (split_lines (String c' s)) as [|h t]; intros H.
      * injection H as <-. now exists EmptyString.
      * injection H as <- _. now exists h.
Qed.

Lemma split_lines_cons_plain (c c' : ascii) (s : string) :
  Ascii.eqb c "010" = false -> Ascii.eqb c' "010" = false ->
  split_lines (String c (String c' s)) = cons_head c (split_lines (String c' s)).
Proof.
  intros Hc Hc'. cbn [split_lines]. rewrite Hc, Hc', andb_false_r. reflexivity.
Qed.

(** Splitting a text given in two parts: the pieces the first part
    closes, then the split of its open piece followed by the second
    part. *)
Lemma split_lines_app (a b : string) :
  split_lines (a ++ b)
  = removelast (split_lines a) ++ split_lines (last (split_lines a) EmptyString ++ b).
Proof.
  induction a as [|c a IH]; [reflexivity|].
  change ((String c a ++ b)%string) with (String c (a ++ b)%string).
  destruct (Ascii.eqb c "010") eqn:Hc.
  - simpl split_lines. rewrite Hc.
    rewrite (removelast_cons _ _ (split_lines_nonempty a)),
      (last_cons _ _ _ (split_lines_nonempty a)).
    simpl. now rewrite IH.
  - destruct a as [|c' a].
    + simpl split_lines at 2 3. rewrite Hc. reflexivity.
    + change ((String c' a ++ b)%string) with (String c' (a ++ b)%string) in *.
      destruct (Ascii.eqb c' "010") eqn:Hc'.
      * (* the second character is a line feed *)
        assert (Hsplit : forall t, split_lines (String c' t) = EmptyString :: split_lines t)
          by (intros t; simpl; now rewrite Hc').
        rewrite !Hsplit in IH.
        rewrite (removelast_cons _ _ (split_lines_nonempty a)),
          (last_cons _ _ _ (split_lines_nonempty a)) in IH.
        destruct (Ascii.eqb c "013") eqn:Hcr.
        -- cbn [split_lines]. rewrite Hc, Hcr, Hc'. cbn [andb].
           rewrite (removelast_cons _ _ (split_lines_nonempty a)),
             (last_cons _ _ _ (split_lines_nonempty a)).
           exact IH.
        -- cbn [split_lines]. rewrite Hc, Hcr, Hc'. cbn [andb].
           fold (split_lines a). fold (split_lines (a ++ b)).
           injection IH as IH. rewrite IH. unfold cons_head.
           rewrite (removelast_cons _ _ (split_lines_nonempty a)),
             (last_cons _ _ _ (split_lines_nonempty a)).
           reflexivity.
      * rewrite (split_lines_cons_plain c c' _ Hc Hc'),
          (split_lines_cons_plain c c' _ Hc Hc'), IH.
        pose proof (split_lines_nonempty (String c' a)) as Hne.
        destruct (split_lines (String c' a)) as [|h t] eqn:Hpieces; [now contradiction Hne|].
        destruct t as [|h' t].
        -- (* one open piece *)
           destruct (single_piece_head c' a h Hc' Hpieces) as [l' ->].
           cbn [removelast last cons_head app].
           change ((String c (String c' l') ++ b)%string)
             with (String c (String c' (l' ++ b)%string)).
           change ((String c' l' ++ b)%string) with (String c' (l' ++ b)%string).
           symmetry. apply (split_lines_cons_plain c c' _ Hc Hc').
        -- assert (Hne2 : h' :: t <> []) by discriminate.
           rewrite (removelast_cons h _ Hne2), (last_cons h _ _ Hne2).
           unfold cons_head.
           rewrite (removelast_cons (String c h) _ Hne2), (last_cons (String c h) _ _ Hne2).
           reflexivity.
Qed.

Lemma append_assoc (a b c : string) : ((a ++ b) ++ c)%string = (a ++ (b ++ c))%string.
Proof. induction a as [|x a IH]; [reflexivity | simpl; now rewrite IH]. Qed.

Lemma removelast_app_nonempty {A : Type} (l l' : list A) :
  l' <> [] -> removelast (l ++ l') = l ++ removelast l'.
Proof. intros Hne. now apply removelast_app. Qed.

Lemma last_app_nonempty {A : Type} (l l' : list A) (d : A) :
  l' <> [] -> last (l ++ l') d = last l' d.
Proof.
  intros Hne. induction l as [|x l IH]; [reflexivity|].
  simpl app. rewrite last_cons; [exact IH|].
  destruct l; [exact Hne | discriminate].
Qed.

Lemma cons_head_no_lf (c : ascii) (pieces : list string) :
  Ascii.eqb c "010" = false ->
  Forall no_line_feed pieces -> Forall no_line_feed (cons_head c pieces).
Proof.
  intros Hc Hall. apply Ascii.eqb_neq in Hc. unfold cons_head.
  destruct pieces as [|p ps].
  - constructor; [|constructor]. unfold no_line_feed. simpl. intros [H|[]]. congruence.
  - inversion Hall as [|? ? Hp Hps]; subst. constructor; [|exact Hps].
    unfold no_line_feed in *. simpl. intros [H|H]; [congruence | now apply Hp].
Qed.

Lemma pieces_no_lf (s : string) : Forall no_line_feed (split_lines s).
Proof.
  assert (Hempty : no_line_feed "") by (unfold no_line_feed; simpl; tauto).
  induction s as [|c s IH]; [now repeat constructor|].
  simpl. destruct (Ascii.eqb c "010") eqn:Hc; [now constructor|].
  destruct s as [|c' s].
  - constructor; [|constructor]. unfold no_line_feed. simpl.
    apply Ascii.eqb_neq in Hc. intros [H|[]]. congruence.
  - destruct (Ascii.eqb c "013" && Ascii.eqb c' "010") eqn:Hsep.
    + apply andb_true_iff in Hsep. destruct Hsep as [_ Hc'].
      simpl in IH. rewrite Hc' in IH. inversion IH; subst. now constructor.
    + now apply cons_head_no_lf.
Qed.

End NmeaCounterFacts.

Lemma on_data_twice (st : NmeaCounter.State) (a b : string) :
  NmeaCounter.on_data (NmeaCounter.on_data st a) b = NmeaCounter.on_data st (a ++ b).
Proof.
  unfold NmeaCounter.on_data. cbn [NmeaCounter.leftover NmeaCounter.nmeaCounts].
  rewrite <- NmeaCounterFacts.append_assoc.
  rewrite (NmeaCounterFacts.split_lines_app (NmeaCounter.leftover st ++ a) b).
  pose proof (NmeaCounterFacts.split_lines_nonempty
                (last (NmeaCounter.split_lines (NmeaCounter.leftover st ++ a)) "" ++ b))
    as Hne.
  rewrite (NmeaCounterFacts.last_app_nonempty _ _ _ Hne),
    (NmeaCounterFacts.removelast_app_nonempty _ _ Hne), fold_left_app.
  reflexivity.
Qed.

Lemma on_data_leftover (st : NmeaCounter.State) (a : string) :
  NmeaCounter.no_line_feed (NmeaCounter.leftover (NmeaCounter.on_data st a)).
Proof.
  unfold NmeaCounter.on_data. cbn [NmeaCounter.leftover].
  pose proof (NmeaCounterFacts.pieces_no_lf (NmeaCounter.leftover st ++ a)) as Hall.
  pose proof (NmeaCounterFacts.split_lines_nonempty (NmeaCounter.leftover st ++ a)) as Hne.
  rewrite Forall_forall in Hall. apply Hall.
  destruct (exists_last Hne) as [l [x Hx]]. rewrite Hx.
  rewrite NmeaCounterFacts.last_app_nonempty by discriminate.
  apply in_or_app. right. now left.
Qed.

Lemma string_of_list_byte_app (a b : list Byte.byte) :
  string_of_list_byte (a ++ b) = (string_of_list_byte a ++ string_of_list_byte b)%string.
Proof.
  induction a as [|x a IH]; [reflexivity|].
  change (String (ascii_of_byte x) (string_of_list_byte (a ++ b))
          = String (ascii_of_byte x) (string_of_list_byte a ++ string_of_list_byte b)%string).
  now rewrite IH.
Qed.

(** X14.  On chunks of ASCII bytes, as NMEA sentences are, the counter
    does not depend on how the TCP stream is cut into chunks: each chunk
    decodes to its own characters, and handling two chunks one after the
    other leaves the same counts and the same pending text as handling
    the bytes of both in one chunk, also when a chunk ends between a
    carriage return and its line feed.  The pending text never holds a
    line feed. *)
Theorem counter_ignores_chunk_boundaries :
  forall (st : NmeaCounter.State) (a b : list Byte.byte),
    forallb NmeaCounter.is_ascii a = true ->
    forallb NmeaCounter.is_ascii b = true ->
    exists st1 st2,
      NmeaCounter.on_chunk st a = Some st1
      /\ NmeaCounter.on_chunk st1 b = Some st2
      /\ NmeaCounter.on_chunk st (a ++ b) = Some st2
      /\ NmeaCounter.no_line_feed (NmeaCounter.leftover st1)
      /\ NmeaCounter.no_line_feed (NmeaCounter.leftover st2).
Proof.
  intros st a b Ha Hb. unfold NmeaCounter.on_chunk, NmeaCounter.toString.
  rewrite forallb_app, Ha, Hb. cbn [andb].
  eexists. eexists. split; [reflexivity|]. split; [reflexivity|]. split; [|split].
  - now rewrite string_of_list_byte_app, on_data_twice.
  - apply on_data_leftover.
  - apply on_data_leftover.
Qed.

Lemma counter_ignores_chunk_boundaries_witness :
  exists st1,
    NmeaCounter.on_chunk NmeaCounter.initial NmeaCounter.chunk_to_carriage_return = Some st1
    /\ NmeaCounter.on_chunk st1 NmeaCounter.chunk_from_line_feed
       = Some {| NmeaCounter.leftover := "$GNR";
                 NmeaCounter.nmeaCounts := [("GNGGA", 1%N)] |}
    /\ NmeaCounter.on_chunk NmeaCounter.initial
         (NmeaCounter.chunk_to_carriage_return ++ NmeaCounter.chunk_from_line_feed)
       = Some {| NmeaCounter.leftover := "$GNR";
                 NmeaCounter.nmeaCounts := [("GNGGA", 1%N)] |}.
Proof.
  destruct (counter_ignores_chunk_boundaries NmeaCounter.initial
              NmeaCounter.chunk_to_carriage_return NmeaCounter.chunk_from_line_feed
              eq_refl eq_refl) as [st1 [st2 [H1 [H2 [H12 _]]]]].
  exists st1. split; [exact H1|].
  assert (Hst2 : Some st2 = Some {| NmeaCounter.leftover := "$GNR";
                                    NmeaCounter.nmeaCounts := [("GNGGA", 1%N)] |}).
  { rewrite <- H12. vm_compute. reflexivity. }
  split.
  - rewrite H2. exact Hst2.
  - rewrite H12. exact Hst2.
Defined.

Module NmeaCounterReport.

Import NmeaCounter.

Lemma bump_keys (type : string) (counts : list (string * N)) :
  exists more, map fst (bump type counts) = map fst counts ++ more.
Proof.
  induction counts as [|[key count] counts IH]; simpl.
  - now exists [type].
  - destruct (String.eqb key type); simpl.
    + exists []. now rewrite app_nil_r.
    + destruct IH as [more ->]. now exists more.
Qed.

Lemma fold_keys (lines : list string) :
  forall counts, exists more,
    map fst (fold_left count_line lines counts) = map fst counts ++ more.
Proof.
  induction lines as [|line lines IH]; intros counts; simpl.
  - exists []. now rewrite app_nil_r.
  - destruct (IH (count_line counts line)) as [more ->].
    unfold count_line. destruct (match_type (trim line)) as [type|].
    + destruct (bump_keys type counts) as [more' ->].
      exists (more' ++ more). now rewrite app_assoc.
    + now exists more.
Qed.

Lemma in_append_r (c : ascii) (a b : string) :
  In c (list_ascii_of_string b) -> In c (list_ascii_of_string (a ++ b)).
Proof. induction a as [|x a IH]; simpl; auto. Qed.

Lemma in_append_l (c : ascii) (a b : string) :
  In c (list_ascii_of_string a) -> In c (list_ascii_of_string (a ++ b)).
Proof. induction a as [|x a IH]; simpl; [tauto|]. intros [H|H]; auto. Qed.

Lemma entry_line_differs (entry : string * N) :
  ("  " ++ fst entry ++ ": " ++ show_count (snd entry))%string <> nothing_received.
Proof.
  intros Heq.
  assert (Hcolon : In ":"%char (list_ascii_of_string nothing_received)).
  { rewrite <- Heq. apply in_append_r, in_append_r, in_append_l. simpl. now left. }
  unfold nothing_received in Hcolon. simpl in Hcolon.
  repeat (destruct Hcolon as [Hcolon|Hcolon]; [discriminate Hcolon|]). exact Hcolon.
Qed.

Lemma run_keeps_keys (evs : list Event) :
  forall st st' log,
    run st evs = (st', log) ->
    (exists more, map fst (nmeaCounts st') = map fst (nmeaCounts st) ++ more)
    /\ (nmeaCounts st <> [] -> ~ In nothing_received log).
Proof.
  induction evs as [|ev evs IH]; intros st st' log Hrun; cbn [run] in Hrun.
  - injection Hrun as <- <-. split; [exists []; now rewrite app_nil_r | auto].
  - destruct ev as [data|].
    + destruct (IH (on_data st data) st' log Hrun) as [[more Hkeys] Hlog].
      destruct (fold_keys (removelast (split_lines (leftover st ++ data))) (nmeaCounts st))
        as [more' Hfold].
      split.
      * exists (more' ++ more). rewrite Hkeys. unfold on_data. cbn [nmeaCounts].
        now rewrite Hfold, app_assoc.
      * intros Hne. apply Hlog. unfold on_data. cbn [nmeaCounts].
        intros Hnil. apply (f_equal (map fst)) in Hnil. rewrite Hfold in Hnil.
        destruct (nmeaCounts st); [now apply Hne | discriminate].
    + unfold on_interval in Hrun.
      destruct (run {| leftover := leftover st;
                       nmeaCounts := map (fun entry => (fst entry, 0%N)) (nmeaCounts st) |}
                    evs) as [st2 log2] eqn:Hrest.
      injection Hrun as <- <-.
      destruct (IH _ st2 log2 Hrest) as [[more Hkeys] Hlog]. cbn [nmeaCounts] in *.
      rewrite map_map in Hkeys. cbn [fst] in Hkeys.
      split; [now exists more|].
      intros Hne Hin. destruct Hin as [Hin|Hin]; [discriminate Hin|].
      apply in_app_or in Hin. destruct Hin as [Hin|Hin].
      * destruct (nmeaCounts st) as [|e es] eqn:Hcounts; [now apply Hne|].
        destruct Hin as [Heq|Hin]; [exact (entry_line_differs e Heq)|].
        apply in_map_iff in Hin. destruct Hin as [entry [Heq _]].
        exact (entry_line_differs entry Heq).
      * apply Hlog; [|exact Hin].
        destruct (nmeaCounts st); [now contradiction Hne | discriminate].
Qed.

End NmeaCounterReport.

(** X15.  The counter's timer sets every count back to 0 but keeps the
    types it has seen: a type once counted stays in the table, in the
    order of first sight, whatever comes after.  So the report says that
    no sentence was received only as long as none has ever been counted;
    after that an idle minute is reported with counts of 0. *)
Theorem counter_report_keeps_its_types :
  forall (st st' : NmeaCounter.State) (evs : list NmeaCounter.Event) (log : list string),
    NmeaCounter.run st evs = (st', log) ->
    (exists more,
       map fst (NmeaCounter.nmeaCounts st') = map fst (NmeaCounter.nmeaCounts st) ++ more)
    /\ Forall (fun entry => snd entry = 0%N)
         (NmeaCounter.nmeaCounts (fst (NmeaCounter.on_interval st)))
    /\ (NmeaCounter.nmeaCounts st <> [] -> ~ In NmeaCounter.nothing_received log)
    /\ (NmeaCounter.nmeaCounts st = [] ->
          In NmeaCounter.nothing_received (snd (NmeaCounter.on_interval st))).
Proof.
  intros st st' evs log Hrun.
  destruct (NmeaCounterReport.run_keeps_keys evs st st' log Hrun) as [Hkeys Hlog].
  split; [exact Hkeys|]. split; [|split; [exact Hlog|]].
  - unfold NmeaCounter.on_interval. cbn [fst NmeaCounter.nmeaCounts].
    apply Forall_forall. intros entry Hin. apply in_map_iff in Hin.
    destruct Hin as [e [<- _]]. reflexivity.
  - intros Hnil. unfold NmeaCounter.on_interval. rewrite Hnil. simpl. right. now left.
Qed.

Lemma counter_report_keeps_its_types_witness :
  snd (NmeaCounter.run NmeaCounter.initial
         [NmeaCounter.Interval;
          NmeaCounter.Data ("$GNGGA,1" ++ LF ++ "$GNRMC,2" ++ LF ++ "$GNGGA,3" ++ LF);
          NmeaCounter.Interval; NmeaCounter.Interval])
  = ["NMEA sentence counts (last minute):"; NmeaCounter.nothing_received;
     "NMEA sentence counts (last minute):"; "  GNGGA: 2"; "  GNRMC: 1";
     "NMEA sentence counts (last minute):"; "  GNGGA: 0"; "  GNRMC: 0"]
  /\ ~ In NmeaCounter.nothing_received
         (snd (NmeaCounter.run
                 {| NmeaCounter.leftover := ""; NmeaCounter.nmeaCounts := [("GNGGA", 2%N)] |}
                 [NmeaCounter.Interval; NmeaCounter.Interval])).
Proof.
  split; [vm_compute; reflexivity|].
  apply (counter_report_keeps_its_types
           {| NmeaCounter.leftover := ""; NmeaCounter.nmeaCounts := [("GNGGA", 2%N)] |}
           (fst (NmeaCounter.run
                   {| NmeaCounter.leftover := "";
                      NmeaCounter.nmeaCounts := [("GNGGA", 2%N)] |}
                   [NmeaCounter.Interval; NmeaCounter.Interval]))
           [NmeaCounter.Interval; NmeaCounter.Interval]).
  - apply surjective_pairing.
  - discriminate.
Defined.

(** ** The command sender *)

Lemma sendNext_trace (commands : list string) (write_error : nat -> option string)
    (fuel : nat) :
  forall idx,
    List.length commands - idx <= fuel ->
    CommandSender.port_writes (CommandSender.sendNext commands write_error fuel idx)
    = map (fun command => (command ++ CRLF)%string)
          (CommandSender.attempted write_error (skipn idx commands) idx)
    /\ CommandSender.closes (CommandSender.sendNext commands write_error fuel idx) = 1
    /\ last (CommandSender.sendNext commands write_error fuel idx) (CommandSender.log "")
       = CommandSender.port_close.
Proof.
  induction fuel as [|fuel IH]; intros idx Hfuel.
  - assert (Hend : nth_error commands idx = None) by (apply nth_error_None; lia).
    assert (Hskip : skipn idx commands = []) by (apply skipn_all2; lia).
    simpl. rewrite Hend, Hskip. now repeat split.
  - destruct (nth_error commands idx) as [command|] eqn:Hnth.
    + assert (Hskip : skipn idx commands = command :: skipn (S idx) commands).
      { clear -Hnth. revert idx Hnth. induction commands as [|c cs IHc]; intros idx Hnth.
        - destruct idx; discriminate.
        - destruct idx as [|idx]; [injection Hnth as ->; reflexivity|].
          simpl in Hnth. simpl skipn at 1. rewrite (IHc idx Hnth). reflexivity. }
      assert (Hlt : idx < List.length commands)
        by (apply nth_error_Some; congruence).
      cbn [CommandSender.sendNext]. rewrite Hnth, Hskip.
      cbn [CommandSender.attempted].
      destruct (write_error idx) as [message|]; [now repeat split|].
      replace (idx + 1) with (S idx) by lia.
      assert (Hfuel' : List.length commands - S idx <= fuel) by lia.
      destruct (IH (S idx) Hfuel') as [Hw [Hc Hl]].
      cbn [CommandSender.port_writes CommandSender.closes map].
      rewrite Hw, Hc. split; [reflexivity|]. split; [reflexivity|].
      remember (CommandSender.sendNext commands write_error fuel (S idx)) as rest.
      assert (Hne : rest <> []) by (intros ->; discriminate Hc).
      destruct rest as [|e rest]; [now contradiction Hne | exact Hl].
    + assert (Hskip : skipn idx commands = [])
        by (apply skipn_all2; now apply nth_error_None).
      cbn [CommandSender.sendNext]. rewrite Hnth, Hskip. now repeat split.
Qed.

Lemma attempted_all_ok (write_error : nat -> option string) (commands : list string) :
  (forall idx, write_error idx = None) ->
  forall idx, CommandSender.attempted write_error commands idx = commands.
Proof.
  intros Hok. induction commands as [|c cs IH]; intros idx; [reflexivity|].
  simpl. now rewrite Hok, IH.
Qed.

(** X16.  The command sender writes the commands in their order, each
    followed by CR LF, and stops with the first write that fails: the
    commands after it are never written.  Whether all writes succeed or
    one fails, the port is closed exactly once, as the last thing done. *)
Theorem commands_sent_in_order_until_failure :
  forall (commands : list string) (write_error : nat -> option string) (fuel : nat),
    List.length commands <= fuel ->
    CommandSender.port_writes (CommandSender.sendNext commands write_error fuel 0)
    = map (fun command => (command ++ CRLF)%string)
          (CommandSender.attempted write_error commands 0)
    /\ CommandSender.closes (CommandSender.sendNext commands write_error fuel 0) = 1
    /\ last (CommandSender.sendNext commands write_error fuel 0) (CommandSender.log "")
       = CommandSender.port_close
    /\ ((forall idx, write_error idx = None) ->
          CommandSender.attempted write_error commands 0 = commands).
Proof.
  intros commands write_error fuel Hfuel.
  assert (Hfuel0 : List.length commands - 0 <= fuel) by lia.
  destruct (sendNext_trace commands write_error fuel 0 Hfuel0) as [Hw [Hc Hl]].
  split; [exact Hw|]. split; [exact Hc|]. split; [exact Hl|].
  intros Hok. now apply attempted_all_ok.
Qed.

Lemma commands_sent_in_order_until_failure_witness :
  CommandSender.port_writes
    (CommandSender.sendNext ["$PQTMCFGMSGRATE,W,GGA,1*0A"; "$PQTMCFGMSGRATE,W,GLL,0*0B";
                             "$PQTMSAVEPAR*5A"]
       (fun idx => if Nat.eqb idx 1 then Some "Port is not open" else None) 3 0)
  = [("$PQTMCFGMSGRATE,W,GGA,1*0A" ++ CRLF)%string;
     ("$PQTMCFGMSGRATE,W,GLL,0*0B" ++ CRLF)%string]
  /\ CommandSender.sendNext CommandSender.commands (fun _ => None) 1 0
     = [CommandSender.port_write ("$PAIR063,-1*22" ++ CRLF);
        CommandSender.log "Sent: $PAIR063,-1*22";
        CommandSender.set_timeout 300;
        CommandSender.log "All commands sent.";
        CommandSender.port_close].
Proof.
  assert (Hfuel : List.length ["$PQTMCFGMSGRATE,W,GGA,1*0A"; "$PQTMCFGMSGRATE,W,GLL,0*0B";
                               "$PQTMSAVEPAR*5A"] <= 3) by (simpl; lia).
  split; [|reflexivity].
  rewrite (proj1 (commands_sent_in_order_until_failure _
                    (fun idx => if Nat.eqb idx 1 then Some "Port is not open" else None)
                    3 Hfuel)).
  reflexivity.
Defined.

(** ** The satellite count *)

(** X17.  The satellite count of a fix is read in base 10: when the 8th
    field is made of digits it is the integer they write, leading zeros
    or not, and when the field is empty or starts with no digit it is
    NaN. *)
Theorem sats_is_decimal :
  forall (sentence : string) (gga : GGA),
    parseGGA sentence = Some gga ->
    (all_digits (part (JS.split_comma sentence) 7) = true ->
     part (JS.split_comma sentence) 7 <> "" ->
       sats gga = of_Z (Z.of_N (decimal (part (JS.split_comma sentence) 7))) false)
    /\ (leading_digits (part (JS.split_comma sentence) 7) = [] -> sats gga = NaN).
Proof.
  intros sentence gga Hgga. unfold parseGGA in Hgga.
  destruct (Nat.ltb (List.length (JS.split_comma sentence)) 15); [discriminate|].
  injection Hgga as <-. simpl. split.
  - intros Hd Hne. now apply parseInt_digits.
  - apply parseInt_no_digit.
Qed.

Lemma sats_is_decimal_witness :
  option_map sats (parseGGA gga_fix1) = Some (of_Z 8 false)
  /\ option_map sats (parseGGA gga_no_position) = Some (S754_zero false).
Proof.
  assert (H08 : "08" <> "") by discriminate.
  assert (H00 : "00" <> "") by discriminate.
  split.
  - destruct (parseGGA gga_fix1) as [gga|] eqn:Hgga; [|vm_compute in Hgga; discriminate].
    simpl. rewrite (proj1 (sats_is_decimal gga_fix1 gga Hgga) eq_refl H08). reflexivity.
  - destruct (parseGGA gga_no_position) as [gga|] eqn:Hgga;
      [|vm_compute in Hgga; discriminate].
    simpl. rewrite (proj1 (sats_is_decimal gga_no_position gga Hgga) eq_refl H00).
    reflexivity.
Defined.

(** ** The gate and the checksum *)

(** X18.  The RTK gate compares the whole 13th field of an RMC line with
    "R".  When that field also carries the checksum, as it does when the
    mode letter is the last field of the sentence, it is not "R", and the
    line is dropped with the gate on, whatever its mode letter. *)
Theorem rmc_with_checksum_in_mode_field_is_dropped :
  forall (cfg : Config) (sk : Sockets) (st : State) (data : string),
    only_rtk_fixed cfg = true ->
    JS.startsWith "$GPRMC" data = true \/ JS.startsWith "$GNRMC" data = true ->
    13 <= List.length (JS.split_comma data) ->
    In "*"%char (list_ascii_of_string (part (JS.split_comma data) 12)) ->
    snd (on_serial_data cfg sk st data) = [].
Proof.
  intros cfg sk st data Hgate Hpre Hlen Hstar.
  destruct (rmc_prefix_cases data Hpre) as [Hr [_ _]].
  assert (Hne : String.eqb (part (JS.split_comma data) 12) "R" = false).
  { apply String.eqb_neq. intros Heq. rewrite Heq in Hstar. simpl in Hstar.
    destruct Hstar as [H|[]]. discriminate. }
  assert (Hrmc : rmc_not_fixed data = true).
  { unfold rmc_not_fixed. rewrite Hr, Hne.
    apply andb_true_iff. split; [apply Nat.ltb_lt; lia | reflexivity]. }
  rewrite on_serial_data_out. unfold forwards. rewrite Hgate, Hrmc.
  now rewrite orb_true_r, andb_false_r.
Qed.

Lemma rmc_with_checksum_in_mode_field_is_dropped_witness :
  snd (on_serial_data (sample_cfg true) sample_sockets (sample_state [1]) rmc_mode_last) = [].
Proof.
  apply (rmc_with_checksum_in_mode_field_is_dropped (sample_cfg true) sample_sockets
           (sample_state [1]) rmc_mode_last).
  - reflexivity.
  - right. reflexivity.
  - vm_compute. lia.
  - vm_compute. tauto.
Defined.

(** ** The allow list and the caster *)

Lemma tracked_is_GGA (cfg : Config) (data : string) :
  tracked cfg data = true -> In "GGA" (allow_list cfg).
Proof.
  unfold tracked. intros Htr. apply andb_true_iff in Htr. destruct Htr as [Htr _].
  apply andb_true_iff in Htr. destruct Htr as [Hallow Hpre].
  apply includes_In in Hallow. apply orb_true_iff in Hpre.
  destruct (gga_prefix_cases data Hpre) as [_ [_ Hsuf]]. now rewrite Hsuf in Hallow.
Qed.

Lemma caster_writes_app (a b : list Effect) :
  caster_writes (a ++ b) = caster_writes a ++ caster_writes b.
Proof.
  induction a as [|e a IH]; [reflexivity|]. destruct e; simpl; now rewrite IH.
Qed.

Lemma forEach_write_no_caster (sk : Sockets) (cl : list nat) (text : string) :
  caster_writes (forEach_write sk cl text) = [].
Proof.
  induction cl as [|y cl IH]; [reflexivity|].
  unfold forEach_write in *. simpl. now destruct (writable (sk y)).
Qed.

Lemma forEach_end_no_caster (sk : Sockets) (cl : list nat) (text : string) :
  forall ended, caster_writes (forEach_end sk cl text ended) = [].
Proof.
  induction cl as [|y cl IH]; intros ended; [reflexivity|].
  simpl. destruct (writable (sk y) && negb (existsb (Nat.eqb y) ended)); simpl; apply IH.
Qed.

Lemma step_no_fix_no_upload (cfg : Config) (sk : Sockets) (st st' : State)
    (ev : Event) (out : list Effect) :
  ~ In "GGA" (allow_list cfg) ->
  latestGGA st = None ->
  step cfg sk st ev = Done st' out ->
  latestGGA st' = None /\ caster_writes out = [].
Proof.
  intros Hno Hnone Hstep. split.
  - rewrite (step_latest cfg sk st st' ev out Hstep). destruct ev; try exact Hnone.
    destruct (tracked cfg data) eqn:Htr; [|exact Hnone].
    now apply tracked_is_GGA in Htr.
  - destruct ev; simpl in Hstep; unfold done in Hstep;
      try (injection Hstep as _ <-; reflexivity); try discriminate.
    + injection Hstep as _ <-. rewrite on_serial_data_out.
      destruct (forwards cfg data); [apply forEach_write_no_caster | reflexivity].
    + destruct (ntrip st); injection Hstep as _ <-; try reflexivity.
      unfold on_ntrip_response. now destruct (negb _).
    + destruct (ntrip st); injection Hstep as _ <-; reflexivity.
    + injection Hstep as _ <-. unfold on_gga_interval. now rewrite Hnone.
    + injection Hstep as _ <-. apply forEach_write_no_caster.
    + injection Hstep as _ <-. apply forEach_write_no_caster.
    + injection Hstep as _ <-. apply forEach_write_no_caster.
    + injection Hstep as _ <-. cbn [snd on_sigint caster_writes].
      now rewrite caster_writes_app, forEach_end_no_caster.
Qed.

Lemma run_no_fix_no_upload (cfg : Config) (evs : list (Sockets * Event)) :
  forall st st' out,
    ~ In "GGA" (allow_list cfg) ->
    latestGGA st = None ->
    run cfg st evs = Done st' out ->
    latestGGA st' = None /\ caster_writes out = [].
Proof.
  induction evs as [|[sk ev] evs IH]; intros st st' out Hno Hnone Hrun; simpl in Hrun.
  - injection Hrun as <- <-. now split.
  - destruct (step cfg sk st ev) as [st1 out1|] eqn:Hstep; [|discriminate].
    destruct (run cfg st1 evs) as [st2 out2|] eqn:Hrest; [|discriminate].
    injection Hrun as <- <-.
    destruct (step_no_fix_no_upload cfg sk st st1 ev out1 Hno Hnone Hstep) as [Hnone1 Hout1].
    destruct (IH st1 st2 out2 Hno Hnone1 Hrest) as [Hnone2 Hout2].
    split; [exact Hnone2|]. now rewrite caster_writes_app, Hout1, Hout2.
Qed.

(** X19.  The position tracker sits behind the allow list, so when GGA is
    not an allowed type no fix is ever stored, and the timer never sends
    the caster anything, whatever lines the receiver gives. *)
Theorem no_GGA_allowed_no_upload :
  forall (cfg : Config) (evs : list (Sockets * Event)),
    ~ In "GGA" (allow_list cfg) ->
    never_drops evs = true ->
    exists st' out,
      run cfg initial_state evs = Done st' out
      /\ latestGGA st' = None
      /\ caster_writes out = [].
Proof.
  intros cfg evs Hno Hdrops.
  destruct (run_total cfg evs initial_state Hdrops) as [st' [out Hrun]].
  exists st', out. split; [exact Hrun|].
  apply (run_no_fix_no_upload cfg evs initial_state st' out Hno eq_refl Hrun).
Qed.

Lemma no_GGA_allowed_no_upload_witness :
  exists st' out,
    run (with_allow_list (sample_cfg false) ["RMC"; "VTG"]) initial_state
        [(sample_sockets, SerialData gga_fix4); (sample_sockets, GgaInterval)]
    = Done st' out
    /\ latestGGA st' = None
    /\ caster_writes out = [].
Proof.
  apply (no_GGA_allowed_no_upload (with_allow_list (sample_cfg false) ["RMC"; "VTG"])
           [(sample_sockets, SerialData gga_fix4); (sample_sockets, GgaInterval)]).
  - simpl. intros [H|[H|[]]]; discriminate.
  - reflexivity.
Defined.
